(** * CyberLearn learning manager: the CRUD data manager over browser storage

    A shallow embedding of the [LearningManager] class that every page
    variant of the application carries (home page, home page with backup,
    topic page, single-page manager, shared single-page manager), together
    with the properties of its load / save / export / import and
    add / update / delete operations. *)

From stdpp Require Import base option list strings gmap.
From Stdlib Require Import ZArith NArith Ascii.
From Stdlib Require String Decimal DecimalFacts DecimalN.

Local Open Scope list_scope.

(** ** JavaScript values

    The store holds plain data: what object literals, array literals and
    [JSON.parse] build.  An object is its list of own properties in
    insertion order.  Numbers never take part in a manager operation and
    are carried as integers. *)

#[warnings="-register-all"]
Inductive value : Type :=
| VUndefined
| VNull
| VBool (b : bool)
| VNum (z : Z)
| VStr (s : string)
| VArr (elems : list value)
| VObj (props : list (string * value)).

(** A plain object: own enumerable properties, in insertion order. *)
Definition obj : Type := list (string * value).

(** Exceptions the manager code can meet. *)
Inductive exn : Type := SyntaxError | TypeError.

(** The result of running a piece of code: normal completion or a throw. *)
Inductive outcome (A : Type) : Type :=
| Return (a : A)
| Throw (e : exn).
Arguments Return {A} a.
Arguments Throw {A} e.

#[global] Instance outcome_ret : MRet outcome := @Return.
#[global] Instance outcome_bind : MBind outcome :=
  fun A B f m => match m with Return a => f a | Throw e => Throw e end.
#[global] Instance outcome_fmap : FMap outcome :=
  fun A B f m => match m with Return a => Return (f a) | Throw e => Throw e end.

(** [try { body } catch (e) { handler }] *)
Definition try_catch {A} (body : outcome A) (handler : exn -> outcome A) : outcome A :=
  match body with
  | Return a => Return a
  | Throw e => handler e
  end.

Module JS.

(** Own-property lookup: the first binding of the key. *)
Fixpoint lookup_prop (k : string) (o : obj) : option value :=
  match o with
  | [] => None
  | (k', v) :: rest => if String.eqb k' k then Some v else lookup_prop k rest
  end.

(** [o.k] on a plain object: the property, or [undefined]. *)
Definition get_own (o : obj) (k : string) : value :=
  default VUndefined (lookup_prop k o).

(** [o.k = v]: an existing property keeps its place, a new one goes last. *)
Fixpoint set_prop (k : string) (v : value) (o : obj) : obj :=
  match o with
  | [] => [(k, v)]
  | (k', v') :: rest =>
      if String.eqb k' k then (k, v) :: rest else (k', v') :: set_prop k v rest
  end.

(** [x.k] on any value, for a key that is neither an array index nor a
    built-in member (the manager reads only [id] and [contents]):
    [null] and [undefined] throw, primitives and arrays give [undefined]. *)
Definition get_prop (x : value) (k : string) : outcome value :=
  match x with
  | VUndefined | VNull => Throw TypeError
  | VObj o => Return (get_own o k)
  | _ => Return VUndefined
  end.

(** [Array.isArray(x)] *)
Definition isArray (x : value) : bool :=
  match x with VArr _ => true | _ => false end.

(** [x === s] for a string [s]. *)
Definition strict_eq_str (x : value) (s : string) : bool :=
  match x with VStr s' => String.eqb s' s | _ => false end.

(** Digits of the radix renderings, ['0'..'9'] then ['a'..'z']. *)
Definition digit_char (d : N) : ascii :=
  if (d <? 10)%N then ascii_of_N (48 + d) else ascii_of_N (87 + d).

Fixpoint radix_digits (fuel : nat) (radix n : N) (acc : string) : string :=
  match fuel with
  | O => acc
  | S fuel' =>
      let acc' := String (digit_char (n mod radix)) acc in
      if (n / radix =? 0)%N then acc' else radix_digits fuel' radix (n / radix) acc'
  end.

(** [n.toString(radix)] for a non-negative integer [n]. *)
Definition toString_radix (radix n : N) : string :=
  radix_digits (S (N.to_nat (N.log2 n))) radix n EmptyString.

(** The own properties an array or a string exposes to a spread: its
    elements under their decimal indices. *)
Fixpoint indexed {A} (f : A -> value) (i : N) (l : list A) : obj :=
  match l with
  | [] => []
  | x :: rest => (toString_radix 10 i, f x) :: indexed f (N.succ i) rest
  end.

(** The properties copied by [...x] inside an object literal. *)
Definition spread (x : value) : obj :=
  match x with
  | VObj o => o
  | VArr l => indexed (fun e => e) 0%N l
  | VStr s => indexed (fun c => VStr (String c EmptyString)) 0%N (String.list_ascii_of_string s)
  | _ => []
  end.

(** Defining the properties [ps], in order, on the object [o]: what the
    rest of an object literal does after its first members. *)
Definition assign_all (o : obj) (ps : obj) : obj :=
  fold_left (fun acc kv => set_prop (fst kv) (snd kv) acc) ps o.

(** [s.substr(n)] *)
Fixpoint substr_from (n : nat) (s : string) : string :=
  match n, s with
  | S n', String _ rest => substr_from n' rest
  | _, _ => s
  end.

(** A parameter default [p = d]: taken when the argument is [undefined]. *)
Definition default_param (arg d : value) : value :=
  match arg with VUndefined => d | _ => arg end.

(** [l.findIndex(p)] where the callback may throw. *)
Fixpoint findIndex {A} (p : A -> outcome bool) (l : list A) : outcome (option nat) :=
  match l with
  | [] => Return None
  | x :: rest =>
      b ← p x;
      if (b : bool) then Return (Some O)
      else r ← findIndex p rest; Return (S <$> (r : option nat))
  end.

(** [l.filter(p)] where the callback may throw. *)
Fixpoint filterM {A} (p : A -> outcome bool) (l : list A) : outcome (list A) :=
  match l with
  | [] => Return []
  | x :: rest =>
      b ← p x;
      r ← filterM p rest;
      Return (if (b : bool) then x :: r else r)
  end.

(** [l.map(f)] where the callback may throw. *)
Fixpoint mapM {A B} (f : A -> outcome B) (l : list A) : outcome (list B) :=
  match l with
  | [] => Return []
  | x :: rest => y ← f x; r ← mapM f rest; Return (y :: r)
  end.

(** [l.find(p)] for a total callback: the first match and its index. *)
Fixpoint find {A} (p : A -> bool) (l : list A) : option (nat * A) :=
  match l with
  | [] => None
  | x :: rest =>
      if p x then Some (O, x)
      else match find p rest with
           | Some (i, y) => Some (S i, y)
           | None => None
           end
  end.

End JS.

(** ** The engine's JSON object

    [JSON.parse] and [JSON.stringify] belong to the browser, not to the
    application: the manager is written against them and the development
    is parametric in them.  [JSON_stringify space x] is
    [JSON.stringify(x, null, space)], with [space = 0] for the
    one-argument call; the manager only ever serialises arrays, for which
    the result is a string. [JSON_parse] throws [SyntaxError] on text that
    is not JSON. *)

Class Json : Type := {
  JSON_parse : string -> outcome value;
  JSON_stringify : nat -> value -> string
}.

(** ** The manager *)

(** [localStorage]: a string-keyed store of strings. *)
Abbreviation localStorage := (gmap string string).

(** The five listings of [LearningManager]. *)
Inductive variant : Type :=
| Home          (* home page, table layout *)
| HomeBackup    (* home page with export / import; two listings, one manager *)
| TopicPage     (* topic detail page *)
| SinglePage    (* combined single-page manager *)
| Shared.       (* combined single-page manager with the data.json exchange *)

(** What an operation reads from the clock and the random source:
    [Date.now()], the base-36 fraction digits of [Math.random()], and the
    [new Date().toISOString()] readings for [createdAt] and for the save
    stamp. *)
Record env : Type := {
  now : N;
  random : list N;
  created_iso : string;
  saved_iso : string
}.

(** The manager object: [this.topics] and the browser's store.  The
    operations work on a list of plain objects, which is what the listings
    build and what the sanitizing loader and import guarantee; what the
    properties of a topic hold is unconstrained.  Every listing carries
    the same text for an operation it has; a listing without an operation
    never calls it. *)
Record manager : Type := {
  topics : list obj;
  storage : localStorage
}.

Definition with_topics (ts : list obj) (m : manager) : manager :=
  {| topics := ts; storage := storage m |}.

(** The array value behind [this.topics]. *)
Definition topics_value (ts : list obj) : value := VArr (map VObj ts).

Module Manager.
Section WithEngine.
Context `{Json}.
Variable v : variant.

(** The key of the blob: a literal in four listings, [this.storageKey]
    in the shared one. *)
Definition storageKey : string :=
  match v with
  | Shared => "cyberlearn_shared_data"
  | _ => "cyberlearn_data"
  end.

(** [saveData()]: one [setItem] of the whole list, and in the shared
    listing a second one for the time stamp.  The store is taken to have
    room for what is written; [Quota.saveData] is the save on a store
    that can refuse a write. *)
Definition saveData (e : env) (m : manager) : manager :=
  let st := <[storageKey := JSON_stringify 0 (topics_value (topics m))]> (storage m) in
  match v with
  | Shared =>
      {| topics := topics m;
         storage := <[storageKey +:+ "_updated" := saved_iso e]> st |}
  | _ => {| topics := topics m; storage := st |}
  end.

(** [Math.random().toString(36)]: ["0"] for zero, else ["0."] and the
    fraction digits. *)
Definition random_toString36 (ds : list N) : string :=
  match ds with
  | [] => "0"
  | _ => "0." +:+ String.string_of_list_ascii (map JS.digit_char ds)
  end.

(** [generateId()] *)
Definition generateId (e : env) : string :=
  JS.toString_radix 36 (now e) +:+ JS.substr_from 2 (random_toString36 (random e)).

(** [t => t.id === id].  Identifiers are strings: the pages pass what
    [generateId] made, read back from the page or its address. *)
Definition has_id (id : string) (t : obj) : bool :=
  JS.strict_eq_str (JS.get_own t "id") id.

(** [c => c.id === contentId], on an element of a contents array. *)
Definition content_has_id (id : string) (c : value) : outcome bool :=
  x ← JS.get_prop c "id"; Return (JS.strict_eq_str x id).

(** [getTopic(id)] *)
Definition getTopic (id : string) (m : manager) : option obj :=
  snd <$> JS.find (has_id id) (topics m).

(** [addTopic(name, description = '')] *)
Definition addTopic (name description : value) (e : env) (m : manager)
  : outcome (value * manager) :=
  let description := JS.default_param description (VStr EmptyString) in
  let topic : obj :=
    [("id", VStr (generateId e));
     ("name", name);
     ("description", description);
     ("contents", VArr []);
     ("createdAt", VStr (created_iso e))] in
  Return (VObj topic, saveData e (with_topics (topics m ++ [topic]) m)).

(** [updateTopic(id, name, description)] *)
Definition updateTopic (id : string) (name description : value) (e : env) (m : manager)
  : outcome (value * manager) :=
  match JS.find (has_id id) (topics m) with
  | Some (i, topic) =>
      let topic := JS.set_prop "name" name topic in
      let topic := JS.set_prop "description" description topic in
      Return (VUndefined, saveData e (with_topics (<[i := topic]> (topics m)) m))
  | None => Return (VUndefined, m)
  end.

(** [deleteTopic(id)] *)
Definition deleteTopic (id : string) (e : env) (m : manager)
  : outcome (value * manager) :=
  Return (VUndefined,
          saveData e (with_topics (List.filter (fun t => negb (has_id id t)) (topics m)) m)).

(** [topic.contents] used as an array: anything else has no [push],
    [findIndex] or [filter] to call. *)
Definition contents_array (topic : obj) : outcome (list value) :=
  match JS.get_own topic "contents" with
  | VArr cs => Return cs
  | _ => Throw TypeError
  end.

(** [addContent(topicId, contentData)] *)
Definition addContent (topicId : string) (contentData : value) (e : env) (m : manager)
  : outcome (value * manager) :=
  match JS.find (has_id topicId) (topics m) with
  | Some (i, topic) =>
      let content : obj :=
        JS.set_prop "createdAt" (VStr (created_iso e))
          (JS.assign_all [("id", VStr (generateId e))] (JS.spread contentData)) in
      cs ← contents_array topic;
      let topic := JS.set_prop "contents" (VArr (cs ++ [VObj content])) topic in
      Return (VObj content, saveData e (with_topics (<[i := topic]> (topics m)) m))
  | None => Return (VUndefined, m)
  end.

(** [updateContent(topicId, contentId, contentData)] *)
Definition updateContent (topicId contentId : string) (contentData : value)
  (e : env) (m : manager) : outcome (value * manager) :=
  match JS.find (has_id topicId) (topics m) with
  | Some (i, topic) =>
      cs ← contents_array topic;
      contentIndex ← JS.findIndex (content_has_id contentId) cs;
      match contentIndex with
      | Some j =>
          let merged : obj :=
            JS.assign_all (JS.spread (default VUndefined (cs !! j))) (JS.spread contentData) in
          let topic := JS.set_prop "contents" (VArr (<[j := VObj merged]> cs)) topic in
          Return (VUndefined, saveData e (with_topics (<[i := topic]> (topics m)) m))
      | None => Return (VUndefined, m)
      end
  | None => Return (VUndefined, m)
  end.

(** [deleteContent(topicId, contentId)] *)
Definition deleteContent (topicId contentId : string) (e : env) (m : manager)
  : outcome (value * manager) :=
  match JS.find (has_id topicId) (topics m) with
  | Some (i, topic) =>
      cs ← contents_array topic;
      kept ← JS.filterM (fun c => negb <$> content_has_id contentId c) cs;
      let topic := JS.set_prop "contents" (VArr kept) topic in
      Return (VUndefined, saveData e (with_topics (<[i := topic]> (topics m)) m))
  | None => Return (VUndefined, m)
  end.


(** *** Loading *)

(** The answer of [fetch('data.json')], read by the shared listing only:
    the request fails, or it answers with a status and a body. *)
Inductive fetched : Type :=
| FetchFailed
| FetchAnswer (ok : bool) (body : string).

(** [data ? ... : ...] and [!data] on the result of [getItem]: a missing
    key and the empty string are both falsy. *)
Definition stored (st : localStorage) : option string :=
  match st !! storageKey with
  | Some EmptyString => None
  | r => r
  end.

(** [topic => ({ ...topic, contents: Array.isArray(topic.contents) ?
    topic.contents : [] })] *)
Definition sanitize (topic : value) : outcome obj :=
  c ← JS.get_prop topic "contents";
  Return (JS.set_prop "contents" (if JS.isArray c then c else VArr []) (JS.spread topic)).

(** [loadData()] of the home, topic and single-page listings:
    [return data ? JSON.parse(data) : []]. *)
Definition loadData_plain (st : localStorage) : outcome value :=
  match stored st with
  | Some data => JSON_parse data
  | None => Return (VArr [])
  end.

(** [loadData()] of the home page with backup: parse and sanitize inside
    a [try], fall back to the empty list in the [catch]. *)
Definition loadData_sanitizing (st : localStorage) : outcome value :=
  match stored st with
  | None => Return (VArr [])
  | Some data =>
      try_catch
        (parsed ← JSON_parse data;
         match parsed with
         | VArr elems => ts ← JS.mapM sanitize elems; Return (topics_value ts)
         | _ => Return (VArr [])
         end)
        (fun _ => Return (VArr []))
  end.

(** [loadData()] of the shared listing, with the store it leaves: the
    [try] covers the [data.json] request only, the read of the store
    comes after it. *)
Definition loadData_shared (f : fetched) (st : localStorage)
  : outcome value * localStorage :=
  let from_file : outcome (option (value * localStorage)) :=
    try_catch
      (match f with
       | FetchFailed => Throw TypeError
       | FetchAnswer true body =>
           data ← JSON_parse body;
           Return (Some (data, <[storageKey := JSON_stringify 0 data]> st))
       | FetchAnswer false _ => Return None
       end)
      (fun _ => Return None) in
  match from_file with
  | Return (Some (data, st')) => (Return data, st')
  | _ =>
      match stored st with
      | Some data => (JSON_parse data, st)
      | None => (Return (VArr []), st)
      end
  end.

(** [loadData()] of the listing at hand: what it returns (the new
    [this.topics]) and the store afterwards. *)
Definition loadData (f : fetched) (st : localStorage) : outcome value * localStorage :=
  match v with
  | HomeBackup => (loadData_sanitizing st, st)
  | Shared => loadData_shared f st
  | _ => (loadData_plain st, st)
  end.

(** *** Export and import (home page with backup) *)


(** [if (callback) callback(success, message)]: what the caller is told,
    when it passed a callback at all. *)
Definition notify (callback success : bool) (message : string) : option (bool * string) :=
  if callback then Some (success, message) else None.

(** [importData(file, callback)]: the [onload] handler run on the text
    of the file.  The callback only observes; it is taken not to throw. *)
Definition importData (text : string) (callback : bool) (e : env) (m : manager)
  : outcome (manager * option (bool * string)) :=
  try_catch
    (importedData ← JSON_parse text;
     match importedData with
     | VArr elems =>
         ts ← JS.mapM sanitize elems;
         Return (saveData e (with_topics ts m),
                 notify callback true "Data imported successfully!")
     | _ =>
         Return (m, notify callback false
                      "Invalid data format. Please select a valid backup file.")
     end)
    (fun _ =>
       Return (m, notify callback false
                    "Error reading file. Please select a valid JSON file.")).

(** *** Running an operation *)

(** The six mutating operations with their arguments. *)
Inductive operation : Type :=
| AddTopic (name description : value)
| UpdateTopic (id : string) (name description : value)
| DeleteTopic (id : string)
| AddContent (topicId : string) (contentData : value)
| UpdateContent (topicId contentId : string) (contentData : value)
| DeleteContent (topicId contentId : string).

Definition run (op : operation) (e : env) (m : manager) : outcome (value * manager) :=
  match op with
  | AddTopic name description => addTopic name description e m
  | UpdateTopic id name description => updateTopic id name description e m
  | DeleteTopic id => deleteTopic id e m
  | AddContent topicId contentData => addContent topicId contentData e m
  | UpdateContent topicId contentId contentData =>
      updateContent topicId contentId contentData e m
  | DeleteContent topicId contentId => deleteContent topicId contentId e m
  end.

(** The manager after a call: every throwing path of an operation
    raises before its first write, so a throw leaves the manager as it
    was. *)
Definition state_after (r : outcome (value * manager)) (m : manager) : manager :=
  match r with
  | Return (_, m') => m'
  | Throw _ => m
  end.

(** The invariant of the store: the blob under the key is the
    serialisation of the whole in-memory list. *)
Definition synced (m : manager) : Prop :=
  storage m !! storageKey = Some (JSON_stringify 0 (topics_value (topics m))).

End WithEngine.
End Manager.

(** A value that JSON text can carry: no [undefined] anywhere in it, and
    every object has each of its keys once. *)
Fixpoint jsonable (x : value) : bool :=
  match x with
  | VUndefined => false
  | VArr elems => forallb jsonable elems
  | VObj props =>
      forallb (fun kv => jsonable (snd kv)) props && bool_decide (NoDup props.*1)
  | _ => true
  end.

(** ** A reference engine

    An executable [JSON.stringify] / [JSON.parse] over the values above,
    following the ECMAScript serialisation (QuoteJSONString,
    SerializeJSONArray, SerializeJSONObject) and the JSON grammar.  Text
    is a list of 8-bit characters; number literals are integers; a
    [\u] escape above [00ff] names no character of this text type. *)

Module Engine.

Abbreviation chars := (list ascii).

Definition lit (s : string) : chars := String.list_ascii_of_string s.

Definition quote_c : ascii := "034"%char.
Definition backslash_c : ascii := "\"%char.
Definition newline_c : ascii := "010"%char.

(** *** Serialisation *)

Definition hex2 (c : ascii) : chars :=
  let n := N_of_ascii c in [JS.digit_char (n / 16); JS.digit_char (n mod 16)].

Definition escape_char (c : ascii) : chars :=
  if Ascii.eqb c quote_c then [backslash_c; quote_c]
  else if Ascii.eqb c backslash_c then [backslash_c; backslash_c]
  else if (N_of_ascii c <? 32)%N then
    if Ascii.eqb c "008"%char then [backslash_c; "b"%char]
    else if Ascii.eqb c "009"%char then [backslash_c; "t"%char]
    else if Ascii.eqb c "010"%char then [backslash_c; "n"%char]
    else if Ascii.eqb c "012"%char then [backslash_c; "f"%char]
    else if Ascii.eqb c "013"%char then [backslash_c; "r"%char]
    else backslash_c :: "u"%char :: "0"%char :: "0"%char :: hex2 c
  else [c].

Fixpoint escape (s : chars) : chars :=
  match s with
  | [] => []
  | c :: rest => escape_char c ++ escape rest
  end.

Definition quote (s : string) : chars :=
  quote_c :: escape (lit s) ++ [quote_c].

Fixpoint uint_digit_chars (u : Decimal.uint) : chars :=
  match u with
  | Decimal.Nil => []
  | Decimal.D0 u' => "0"%char :: uint_digit_chars u'
  | Decimal.D1 u' => "1"%char :: uint_digit_chars u'
  | Decimal.D2 u' => "2"%char :: uint_digit_chars u'
  | Decimal.D3 u' => "3"%char :: uint_digit_chars u'
  | Decimal.D4 u' => "4"%char :: uint_digit_chars u'
  | Decimal.D5 u' => "5"%char :: uint_digit_chars u'
  | Decimal.D6 u' => "6"%char :: uint_digit_chars u'
  | Decimal.D7 u' => "7"%char :: uint_digit_chars u'
  | Decimal.D8 u' => "8"%char :: uint_digit_chars u'
  | Decimal.D9 u' => "9"%char :: uint_digit_chars u'
  end.

Definition number (z : Z) : chars :=
  (if (z <? 0)%Z then ["-"%char] else []) ++ uint_digit_chars (N.to_uint (Z.abs_N z)).

(** A line break and the indentation of a nesting level, of at most ten
    spaces a level; nothing when no [space] is asked for. *)
Definition break (space level : nat) : chars :=
  match space with
  | O => []
  | _ => newline_c :: repeat " "%char (Nat.min space 10 * level)
  end.

Definition colon (space : nat) : chars :=
  match space with
  | O => [":"%char]
  | _ => [":"%char; " "%char]
  end.

Fixpoint join (sep : chars) (items : list chars) : chars :=
  match items with
  | [] => []
  | [x] => x
  | x :: rest => x ++ sep ++ join sep rest
  end.

Definition bracket (opening closing : ascii) (space level : nat) (items : list chars)
  : chars :=
  match items with
  | [] => [opening; closing]
  | _ =>
      opening :: break space (S level)
        ++ join (","%char :: break space (S level)) items
        ++ break space level ++ [closing]
  end.

(** The text of a value at a nesting level; [None] for [undefined],
    which an array renders as [null] and an object leaves out. *)
Fixpoint serialize (space level : nat) (x : value) : option chars :=
  match x with
  | VUndefined => None
  | VNull => Some (lit "null")
  | VBool true => Some (lit "true")
  | VBool false => Some (lit "false")
  | VNum z => Some (number z)
  | VStr s => Some (quote s)
  | VArr elems =>
      Some (bracket "["%char "]"%char space level
              (map (fun e => default (lit "null") (serialize space (S level) e)) elems))
  | VObj props =>
      Some (bracket "{"%char "}"%char space level
              (omap (fun kv =>
                       match serialize space (S level) (snd kv) with
                       | Some body => Some (quote (fst kv) ++ colon space ++ body)
                       | None => None
                       end) props))
  end.

(** [JSON.stringify(x, null, space)].  On [undefined] the engine gives
    back [undefined], not a string; the manager never asks for it and the
    text below stands in for it. *)
Definition stringify (space : nat) (x : value) : string :=
  String.string_of_list_ascii (default (lit "undefined") (serialize space 0 x)).

(** *** Parsing *)

Definition is_ws (c : ascii) : bool :=
  Ascii.eqb c " "%char || Ascii.eqb c "009"%char
  || Ascii.eqb c "010"%char || Ascii.eqb c "013"%char.

Fixpoint skip_ws (s : chars) : chars :=
  match s with
  | c :: rest => if is_ws c then skip_ws rest else s
  | [] => []
  end.

(** [expect p s]: the text after the prefix [p] of [s]. *)
Fixpoint expect (p s : chars) : option chars :=
  match p, s with
  | [], _ => Some s
  | a :: p', b :: s' => if Ascii.eqb a b then expect p' s' else None
  | _ :: _, [] => None
  end.

Definition hex_value (c : ascii) : option N :=
  let n := N_of_ascii c in
  if ((48 <=? n) && (n <=? 57))%N then Some (n - 48)%N
  else if ((97 <=? n) && (n <=? 102))%N then Some (n - 87)%N
  else if ((65 <=? n) && (n <=? 70))%N then Some (n - 55)%N
  else None.

(** The character of a four-digit [\u] escape. *)
Definition unicode_escape (a b c d : ascii) : option ascii :=
  match hex_value a, hex_value b, hex_value c, hex_value d with
  | Some 0%N, Some 0%N, Some h, Some l => Some (ascii_of_N (16 * h + l))
  | _, _, _, _ => None
  end.

(** The body of a string literal, after its opening quote. *)
Fixpoint parse_string (s : chars) : option (chars * chars) :=
  match s with
  | [] => None
  | c :: rest =>
      if Ascii.eqb c quote_c then Some ([], rest)
      else if Ascii.eqb c backslash_c then
        match rest with
        | [] => None
        | x :: rest' =>
            let simple (d : ascii) :=
              match parse_string rest' with
              | Some (body, r) => Some (d :: body, r)
              | None => None
              end in
            if Ascii.eqb x quote_c then simple quote_c
            else if Ascii.eqb x backslash_c then simple backslash_c
            else if Ascii.eqb x "/"%char then simple "/"%char
            else if Ascii.eqb x "b"%char then simple "008"%char
            else if Ascii.eqb x "t"%char then simple "009"%char
            else if Ascii.eqb x "n"%char then simple "010"%char
            else if Ascii.eqb x "f"%char then simple "012"%char
            else if Ascii.eqb x "r"%char then simple "013"%char
            else if Ascii.eqb x "u"%char then
              match rest' with
              | h1 :: h2 :: h3 :: h4 :: rest'' =>
                  match unicode_escape h1 h2 h3 h4, parse_string rest'' with
                  | Some d, Some (body, r) => Some (d :: body, r)
                  | _, _ => None
                  end
              | _ => None
              end
            else None
        end
      else if (N_of_ascii c <? 32)%N then None
      else
        match parse_string rest with
        | Some (body, r) => Some (c :: body, r)
        | None => None
        end
  end.

Definition digit_of (c : ascii) : option (Decimal.uint -> Decimal.uint) :=
  let n := N_of_ascii c in
  if (n =? 48)%N then Some Decimal.D0 else if (n =? 49)%N then Some Decimal.D1
  else if (n =? 50)%N then Some Decimal.D2 else if (n =? 51)%N then Some Decimal.D3
  else if (n =? 52)%N then Some Decimal.D4 else if (n =? 53)%N then Some Decimal.D5
  else if (n =? 54)%N then Some Decimal.D6 else if (n =? 55)%N then Some Decimal.D7
  else if (n =? 56)%N then Some Decimal.D8 else if (n =? 57)%N then Some Decimal.D9
  else None.

(** The longest run of decimal digits at the head of the text. *)
Fixpoint parse_digits (s : chars) : Decimal.uint * chars :=
  match s with
  | [] => (Decimal.Nil, [])
  | c :: rest =>
      match digit_of c with
      | Some d => let '(u, r) := parse_digits rest in (d u, r)
      | None => (Decimal.Nil, s)
      end
  end.

(** An integer literal: an optional minus sign, then digits with no
    leading zero. *)
Definition parse_number (s : chars) : option (Z * chars) :=
  let '(negative, s') :=
    match s with
    | c :: rest => if Ascii.eqb c "-"%char then (true, rest) else (false, s)
    | [] => (false, s)
    end in
  let '(u, r) := parse_digits s' in
  if Decimal.uint_beq (Decimal.unorm u) u then
    let n := Z.of_N (N.of_uint u) in
    Some (if negative then (- n)%Z else n, r)
  else None.

(** The elements of a non-empty array, up to and including its [']']. *)
Fixpoint parse_elements (pv : chars -> option (value * chars)) (fuel : nat) (s : chars)
  : option (list value * chars) :=
  match fuel with
  | O => None
  | S fuel' =>
      match pv s with
      | Some (x, r) =>
          match skip_ws r with
          | c :: r' =>
              if Ascii.eqb c ","%char then
                match parse_elements pv fuel' r' with
                | Some (xs, r'') => Some (x :: xs, r'')
                | None => None
                end
              else if Ascii.eqb c "]"%char then Some ([x], r')
              else None
          | [] => None
          end
      | None => None
      end
  end.

(** The members of a non-empty object, up to and including its ['}']. *)
Fixpoint parse_members (pv : chars -> option (value * chars)) (fuel : nat) (s : chars)
  : option (list (string * value) * chars) :=
  match fuel with
  | O => None
  | S fuel' =>
      match skip_ws s with
      | q :: r0 =>
          if Ascii.eqb q quote_c then
            match parse_string r0 with
            | Some (k, r1) =>
                match skip_ws r1 with
                | c :: r2 =>
                    if Ascii.eqb c ":"%char then
                      match pv r2 with
                      | Some (x, r3) =>
                          match skip_ws r3 with
                          | d :: r4 =>
                              if Ascii.eqb d ","%char then
                                match parse_members pv fuel' r4 with
                                | Some (kxs, r5) =>
                                    Some ((String.string_of_list_ascii k, x) :: kxs, r5)
                                | None => None
                                end
                              else if Ascii.eqb d "}"%char then
                                Some ([(String.string_of_list_ascii k, x)], r4)
                              else None
                          | [] => None
                          end
                      | None => None
                      end
                    else None
                | [] => None
                end
            | None => None
            end
          else None
      | [] => None
      end
  end.

(** A value, after optional white space.  A repeated member name keeps
    its first place and its last value. *)
Fixpoint parse_value (fuel : nat) (s : chars) : option (value * chars) :=
  match fuel with
  | O => None
  | S fuel' =>
      match skip_ws s with
      | [] => None
      | c :: rest =>
          if Ascii.eqb c "n"%char then
            r ← expect (lit "ull") rest; Some (VNull, r)
          else if Ascii.eqb c "t"%char then
            r ← expect (lit "rue") rest; Some (VBool true, r)
          else if Ascii.eqb c "f"%char then
            r ← expect (lit "alse") rest; Some (VBool false, r)
          else if Ascii.eqb c quote_c then
            match parse_string rest with
            | Some (body, r) => Some (VStr (String.string_of_list_ascii body), r)
            | None => None
            end
          else if Ascii.eqb c "["%char then
            match skip_ws rest with
            | c' :: rest' =>
                if Ascii.eqb c' "]"%char then Some (VArr [], rest')
                else
                  match parse_elements (parse_value fuel') fuel' rest with
                  | Some (xs, r) => Some (VArr xs, r)
                  | None => None
                  end
            | [] => None
            end
          else if Ascii.eqb c "{"%char then
            match skip_ws rest with
            | c' :: rest' =>
                if Ascii.eqb c' "}"%char then Some (VObj [], rest')
                else
                  match parse_members (parse_value fuel') fuel' rest with
                  | Some (kxs, r) => Some (VObj (JS.assign_all [] kxs), r)
                  | None => None
                  end
            | [] => None
            end
          else
            match parse_number (c :: rest) with
            | Some (z, r) => Some (VNum z, r)
            | None => None
            end
      end
  end.

Definition parse (text : string) : outcome value :=
  let s := lit text in
  match parse_value (S (length s)) s with
  | Some (x, r) =>
      match skip_ws r with
      | [] => Return x
      | _ => Throw SyntaxError
      end
  | None => Throw SyntaxError
  end.

(** *** Notions for reasoning about the engine *)

(** Text made of white space only. *)
Definition all_ws (s : chars) : Prop := Forall (fun c => is_ws c = true) s.

(** Text that cannot continue a number: it is empty or starts with a
    character that is not a digit. *)
Definition delimited (r : chars) : Prop :=
  match r with
  | [] => True
  | c :: _ => digit_of c = None
  end.

(** The characters a number literal can start with. *)
Definition number_start (c : ascii) : Prop := In c (lit "-0123456789").

(** The text of a value parses back to the value, whatever follows it. *)
Definition parses_back (x : value) : Prop :=
  forall space level body,
    jsonable x = true ->
    serialize space level x = Some body ->
    forall fuel, length body < fuel ->
    forall r, delimited r -> parse_value fuel (body ++ r) = Some (x, r).

(** The white space after the colon of a member. *)
Definition colon_ws (space : nat) : chars :=
  match space with O => [] | _ => [" "%char] end.

(** The text of one member of an object. *)
Definition member_text (space level : nat) (kv : string * value) : option chars :=
  match serialize space level (snd kv) with
  | Some body => Some (quote (fst kv) ++ colon space ++ body)
  | None => None
  end.

End Engine.

Definition reference_engine : Json :=
  {| JSON_parse := Engine.parse; JSON_stringify := Engine.stringify |}.

(** ** The pages' form handlers

    What [handleTopicSubmit] and [handleContentSubmit] do with the
    manager, given what the form fields hold. *)

Module Page.

(** White space as [String.prototype.trim] sees it, among 8-bit
    characters: tab to carriage return, space, no-break space. *)
Definition is_space (c : ascii) : bool :=
  let n := N_of_ascii c in
  ((9 <=? n) && (n <=? 13) || (n =? 32) || (n =? 160))%N.

Fixpoint trim_start (s : string) : string :=
  match s with
  | EmptyString => EmptyString
  | String c rest => if is_space c then trim_start rest else s
  end.

Fixpoint trim_end (s : string) : string :=
  match s with
  | EmptyString => EmptyString
  | String c rest =>
      match trim_end rest with
      | EmptyString => if is_space c then EmptyString else String c EmptyString
      | rest' => String c rest'
      end
  end.

(** [s.trim()] *)
Definition trim (s : string) : string := trim_end (trim_start s).

(** Truthiness of a string: the empty string is falsy. *)
Definition truthy (s : string) : bool :=
  match s with EmptyString => false | _ => true end.

(** What the content form holds at submit time: the title and
    description fields, the subtopic inputs, the label and url inputs of
    each link row, and the [src] of the preview image when there is one. *)
Record content_form : Type := {
  title_input : string;
  description_input : string;
  subtopic_inputs : list string;
  link_inputs : list (string * string);
  preview_src : option string
}.

(** [inputs.map(input => input.value.trim()).filter(value => value !== '')] *)
Definition collect_subtopics (inputs : list string) : list string :=
  List.filter truthy (map trim inputs).

(** [rows.map(item => ({ label, url })).filter(link => link.label && link.url)],
    label and url trimmed. *)
Definition collect_links (rows : list (string * string)) : list (string * string) :=
  List.filter (fun link => truthy (fst link) && truthy (snd link))
    (map (fun row => (trim (fst row), trim (snd row))) rows).

(** [imagePreview.querySelector('img')?.src || null] *)
Definition collect_image (src : option string) : value :=
  match src with
  | Some s => if truthy s then VStr s else VNull
  | None => VNull
  end.

(** The [contentData] literal of [handleContentSubmit]. *)
Definition contentData_of (form : content_form) : value :=
  VObj [("title", VStr (trim (title_input form)));
        ("description", VStr (trim (description_input form)));
        ("subtopics", VArr (map VStr (collect_subtopics (subtopic_inputs form))));
        ("links",
         VArr (map (fun link => VObj [("label", VStr (fst link)); ("url", VStr (snd link))])
                 (collect_links (link_inputs form))));
        ("image", collect_image (preview_src form))].

Section WithEngine.
Context `{Json}.
Variable v : variant.

(** [handleContentSubmit(e)] after [openContentModal(.., contentId)]:
    the modal was opened with [editMode = !!contentId], and the submit
    updates in edit mode and adds otherwise. *)
Definition handleContentSubmit (topicId : string) (contentId : option string)
  (form : content_form) (e : env) (m : manager) : outcome (value * manager) :=
  let contentData := contentData_of form in
  match contentId with
  | Some id =>
      if truthy id then Manager.updateContent v topicId id contentData e m
      else Manager.addContent v topicId contentData e m
  | None => Manager.addContent v topicId contentData e m
  end.

(** [handleTopicSubmit(e)] of the home and single pages, after
    [openTopicModal(topicId)]: update when an id is current, add
    otherwise, with both fields trimmed. *)
Definition handleTopicSubmit (topicId : option string) (name_input description_input : string)
  (e : env) (m : manager) : outcome (value * manager) :=
  let name := VStr (trim name_input) in
  let description := VStr (trim description_input) in
  match topicId with
  | Some id =>
      if truthy id then Manager.updateTopic v id name description e m
      else Manager.addTopic v name description e m
  | None => Manager.addTopic v name description e m
  end.

End WithEngine.
End Page.

(** ** A store with a quota

    [localStorage.setItem] throws [QuotaExceededError] when the browser
    does not accept the store with the item written.  Here the manager
    is run against such a store: what an operation plans (the record it
    hands back and the topics list it has put in memory) is as before;
    the save after it can fail. *)

Module Quota.
Section WithEngine.
Context `{Json}.
Variable v : variant.

(** Whether the browser accepts a store. *)
Variable fits : localStorage -> bool.

(** [localStorage.setItem(k, x)]: the store with the item, or nothing
    when the write is refused, which leaves the store as it was. *)
Definition setItem (k x : string) (st : localStorage) : option localStorage :=
  if fits (<[k := x]> st) then Some (<[k := x]> st) else None.

(** [saveData()] on a store with a quota: the manager it leaves, and
    whether it returned ([true]) or a [setItem] threw ([false]). *)
Definition saveData (e : env) (m : manager) : manager * bool :=
  match setItem (Manager.storageKey v)
          (JSON_stringify 0 (topics_value (topics m))) (storage m) with
  | None => (m, false)
  | Some st =>
      match v with
      | Shared =>
          match setItem (Manager.storageKey v +:+ "_updated") (saved_iso e) st with
          | None => ({| topics := topics m; storage := st |}, false)
          | Some st' => ({| topics := topics m; storage := st' |}, true)
          end
      | _ => ({| topics := topics m; storage := st |}, true)
      end
  end.

(** How a call ends: it returns, it throws one of the manager's own
    exceptions, or a [setItem] throws for lack of room. *)
Inductive completion : Type :=
| Completed (r : value)
| Thrown (err : exn)
| OutOfRoom.

(** What an operation does before it saves: the record it will hand
    back and, when it goes on to save, the topics list it has put in
    [this.topics]. *)
Definition plan (op : Manager.operation) (e : env) (m : manager)
  : outcome (value * option (list obj)) :=
  match op with
  | Manager.AddTopic name description =>
      let description := JS.default_param description (VStr EmptyString) in
      let topic : obj :=
        [("id", VStr (Manager.generateId e));
         ("name", name);
         ("description", description);
         ("contents", VArr []);
         ("createdAt", VStr (created_iso e))] in
      Return (VObj topic, Some (topics m ++ [topic]))
  | Manager.UpdateTopic id name description =>
      match JS.find (Manager.has_id id) (topics m) with
      | Some (i, topic) =>
          let topic := JS.set_prop "name" name topic in
          let topic := JS.set_prop "description" description topic in
          Return (VUndefined, Some (<[i := topic]> (topics m)))
      | None => Return (VUndefined, None)
      end
  | Manager.DeleteTopic id =>
      Return (VUndefined,
              Some (List.filter (fun t => negb (Manager.has_id id t)) (topics m)))
  | Manager.AddContent topicId contentData =>
      match JS.find (Manager.has_id topicId) (topics m) with
      | Some (i, topic) =>
          let content : obj :=
            JS.set_prop "createdAt" (VStr (created_iso e))
              (JS.assign_all [("id", VStr (Manager.generateId e))] (JS.spread contentData)) in
          cs ← Manager.contents_array topic;
          let topic := JS.set_prop "contents" (VArr (cs ++ [VObj content])) topic in
          Return (VObj content, Some (<[i := topic]> (topics m)))
      | None => Return (VUndefined, None)
      end
  | Manager.UpdateContent topicId contentId contentData =>
      match JS.find (Manager.has_id topicId) (topics m) with
      | Some (i, topic) =>
          cs ← Manager.contents_array topic;
          contentIndex ← JS.findIndex (Manager.content_has_id contentId) cs;
          match contentIndex with
          | Some j =>
              let merged : obj :=
                JS.assign_all (JS.spread (default VUndefined (cs !! j)))
                  (JS.spread contentData) in
              let topic := JS.set_prop "contents" (VArr (<[j := VObj merged]> cs)) topic in
              Return (VUndefined, Some (<[i := topic]> (topics m)))
          | None => Return (VUndefined, None)
          end
      | None => Return (VUndefined, None)
      end
  | Manager.DeleteContent topicId contentId =>
      match JS.find (Manager.has_id topicId) (topics m) with
      | Some (i, topic) =>
          cs ← Manager.contents_array topic;
          kept ← JS.filterM (fun c => negb <$> Manager.content_has_id contentId c) cs;
          let topic := JS.set_prop "contents" (VArr kept) topic in
          Return (VUndefined, Some (<[i := topic]> (topics m)))
      | None => Return (VUndefined, None)
      end
  end.

(** An operation on a store with a quota: how the call ends and the
    manager it leaves.  When the save throws, the topics list is already
    the new one. *)
Definition run (op : Manager.operation) (e : env) (m : manager) : completion * manager :=
  match plan op e m with
  | Throw err => (Thrown err, m)
  | Return (r, None) => (Completed r, m)
  | Return (r, Some ts) =>
      let '(m', returned) := saveData e (with_topics ts m) in
      (if returned then Completed r else OutOfRoom, m')
  end.

(** [importData(file, callback)] on a store with a quota: the [catch]
    also catches what [saveData] throws, after [this.topics] was
    assigned. *)
Definition importData (text : string) (callback : bool) (e : env) (m : manager)
  : manager * option (bool * string) :=
  let unreadable :=
    Manager.notify callback false "Error reading file. Please select a valid JSON file." in
  match JSON_parse text with
  | Throw _ => (m, unreadable)
  | Return (VArr elems) =>
      match JS.mapM Manager.sanitize elems with
      | Throw _ => (m, unreadable)
      | Return ts =>
          let '(m', returned) := saveData e (with_topics ts m) in
          (m', if returned
               then Manager.notify callback true "Data imported successfully!"
               else unreadable)
      end
  | Return _ =>
      (m, Manager.notify callback false
            "Invalid data format. Please select a valid backup file.")
  end.

End WithEngine.
End Quota.

(** ** Specification-side notions *)

(** The topics list [ts'] is [ts] with exactly the topics whose [id] is
    the string [id] taken out, the others kept as they are and in order. *)
Inductive removes (id : string) : list obj -> list obj -> Prop :=
| removes_nil : removes id [] []
| removes_drop t ts ts' :
    JS.get_own t "id" = VStr id -> removes id ts ts' -> removes id (t :: ts) ts'
| removes_keep t ts ts' :
    JS.get_own t "id" <> VStr id -> removes id ts ts' -> removes id (t :: ts) (t :: ts').

(** The fraction digits [Math.random()] can render in base 36: digits
    below 36, the last one not zero. *)
Definition random_digits_ok (ds : list N) : Prop :=
  Forall (fun d => (d < 36)%N) ds /\ last ds <> Some 0%N.



(** A value on which [x.id] can be read: neither [null] nor [undefined]. *)
Definition readable (x : value) : bool :=
  match x with VUndefined | VNull => false | _ => true end.

(** A topic the content operations can work on: its [contents] is an
    array and every element of it is readable. *)
Definition workable (topic : obj) : Prop :=
  exists cs, JS.get_own topic "contents" = VArr cs
             /\ Forall (fun c => readable c = true) cs.

(** The content records of [cs'] are those of [cs] without the ones
    whose [id] is the string [id], the others as they are and in order. *)
Inductive removes_content (id : string) : list value -> list value -> Prop :=
| removes_content_nil : removes_content id [] []
| removes_content_drop c cs cs' :
    Manager.content_has_id id c = Return true ->
    removes_content id cs cs' -> removes_content id (c :: cs) cs'
| removes_content_keep c cs cs' :
    Manager.content_has_id id c = Return false ->
    removes_content id cs cs' -> removes_content id (c :: cs) (c :: cs').

(** ** Sample data *)

Definition env0 : env :=
  {| now := 1700000000000; random := [7; 20; 3]%N;
     created_iso := "2023-11-14T22:13:20.000Z"; saved_iso := "2023-11-14T22:13:20.001Z" |}.

Definition card1 : obj :=
  [("id", VStr "c1"); ("title", VStr "Ports"); ("description", VStr "Well-known ports");
   ("subtopics", VArr [VStr "tcp"; VStr "udp"]);
   ("links", VArr [VObj [("label", VStr "IANA"); ("url", VStr "https://www.iana.org")]]);
   ("image", VNull); ("createdAt", VStr "2023-11-01T10:00:00.000Z")].

Definition topic1 : obj :=
  [("id", VStr "t1"); ("name", VStr "Networking"); ("description", VStr "Basics");
   ("contents", VArr [VObj card1]); ("createdAt", VStr "2023-11-01T09:00:00.000Z")].

Definition topic2 : obj :=
  [("id", VStr "t2"); ("name", VStr "Crypto"); ("description", VStr EmptyString);
   ("contents", VArr []); ("createdAt", VStr "2023-11-02T09:00:00.000Z")].

(** A manager with nothing stored and nothing loaded. *)
Definition manager0 : manager := {| topics := []; storage := ∅ |}.

(** A manager holding two topics, saved by the given listing of the
    reference engine. *)
Definition manager1 (v : variant) : manager :=
  @Manager.saveData reference_engine v env0 {| topics := [topic1; topic2]; storage := ∅ |}.


(** A store whose blob was cut short. *)
Definition broken_store : localStorage := {[ "cyberlearn_data" := "[{" ]}.

(** The arguments of an operation are JSON values; a description left
    out of [addTopic] is fine, its default is the empty string. *)
Definition carries_json (op : Manager.operation) : Prop :=
  match op with
  | Manager.AddTopic name description =>
      jsonable name = true /\ (description = VUndefined \/ jsonable description = true)
  | Manager.UpdateTopic _ name description => jsonable name = true /\ jsonable description = true
  | Manager.AddContent _ contentData | Manager.UpdateContent _ _ contentData =>
      Forall (fun kv => jsonable (snd kv) = true) (JS.spread contentData)
  | Manager.DeleteTopic _ | Manager.DeleteContent _ _ => True
  end.

(** A topic that came without [contents], as the listings that do not
    sanitize can hold one, and a manager holding it. *)
Definition topic3 : obj :=
  [("id", VStr "t3"); ("name", VStr "Forensics"); ("createdAt", VStr "2023-11-03T09:00:00.000Z")].

Definition manager3 : manager :=
  @Manager.saveData reference_engine SinglePage env0 {| topics := [topic3]; storage := ∅ |}.

(** A filled-in content form: blank rows and stray white space included. *)
Definition form0 : Page.content_form :=
  {| Page.title_input := "  Ports and protocols ";
     Page.description_input := "Well-known ports";
     Page.subtopic_inputs := ["tcp "; "   "; "udp"];
     Page.link_inputs := [(" IANA", "https://www.iana.org "); ("RFC", "  ")];
     Page.preview_src := None |}.

(** [manager0] after one [addTopic]. *)
Definition manager_once : manager :=
  Manager.state_after
    (@Manager.addTopic reference_engine Home (VStr "Linux") VUndefined env0 manager0)
    manager0.

(** A browser whose store is full, and one that takes anything. *)
Definition full_store (st : localStorage) : bool := false.
Definition roomy_store (st : localStorage) : bool := true.

(** ** Facts about the JavaScript primitives *)

Import Manager.

Section Primitives.

Lemma strict_eq_str_true x s : JS.strict_eq_str x s = true <-> x = VStr s.
Proof.
  destruct x; simpl; try (split; [discriminate | discriminate]).
  rewrite String.eqb_eq. split; [intros ->; reflexivity | intros [= ->]; reflexivity].
Qed.

Lemma strict_eq_str_false x s : JS.strict_eq_str x s = false <-> x <> VStr s.
Proof.
  rewrite <- strict_eq_str_true. destruct (JS.strict_eq_str x s); split; intros; congruence.
Qed.

Lemma lookup_set_prop_eq k x o : JS.lookup_prop k (JS.set_prop k x o) = Some x.
Proof.
  induction o as [|[k' x'] o IH]; simpl.
  - rewrite String.eqb_refl. reflexivity.
  - destruct (String.eqb k' k) eqn:E; simpl.
    + rewrite String.eqb_refl. reflexivity.
    + rewrite E. exact IH.
Qed.

Lemma lookup_set_prop_ne k k' x o :
  k <> k' -> JS.lookup_prop k' (JS.set_prop k x o) = JS.lookup_prop k' o.
Proof.
  intros Hne. induction o as [|[k0 x0] o IH]; simpl.
  - apply String.eqb_neq in Hne. rewrite Hne. reflexivity.
  - destruct (String.eqb k0 k) eqn:E; simpl.
    + apply String.eqb_eq in E. subst k0.
      apply String.eqb_neq in Hne. rewrite Hne. reflexivity.
    + destruct (String.eqb k0 k'); [reflexivity | exact IH].
Qed.

Lemma set_prop_same k x o : JS.lookup_prop k o = Some x -> JS.set_prop k x o = o.
Proof.
  induction o as [|[k' x'] o IH]; simpl; [discriminate |].
  destruct (String.eqb k' k) eqn:E.
  - apply String.eqb_eq in E. intros [= ->]. subst. reflexivity.
  - intros Hl. rewrite IH by exact Hl. reflexivity.
Qed.

Lemma get_own_set_prop_eq k x o : JS.get_own (JS.set_prop k x o) k = x.
Proof. unfold JS.get_own. rewrite lookup_set_prop_eq. reflexivity. Qed.

Lemma get_own_set_prop_ne k k' x o :
  k <> k' -> JS.get_own (JS.set_prop k x o) k' = JS.get_own o k'.
Proof. intros Hne. unfold JS.get_own. rewrite lookup_set_prop_ne by exact Hne. reflexivity. Qed.

(** Defining a list of properties: the last definition of a key wins,
    a key that is not defined keeps what it had. *)
Lemma lookup_assign_all k o ps :
  JS.lookup_prop k (JS.assign_all o ps) =
    match JS.lookup_prop k (rev ps) with
    | Some x => Some x
    | None => JS.lookup_prop k o
    end.
Proof.
  unfold JS.assign_all. revert o.
  induction ps as [|[k0 x0] ps IH]; intros o; simpl; [reflexivity |].
  rewrite IH.
  assert (Hrev : forall l, JS.lookup_prop k (l ++ [(k0, x0)]) =
            match JS.lookup_prop k l with
            | Some x => Some x
            | None => if String.eqb k0 k then Some x0 else None
            end).
  { induction l as [|[k1 x1] l IHl]; simpl; [reflexivity |].
    destruct (String.eqb k1 k); [reflexivity | exact IHl]. }
  rewrite Hrev. destruct (JS.lookup_prop k (rev ps)); [reflexivity |].
  destruct (String.eqb k0 k) eqn:E.
  - apply String.eqb_eq in E. subst. apply lookup_set_prop_eq.
  - apply String.eqb_neq in E. apply lookup_set_prop_ne. exact E.
Qed.

Lemma find_Some {A} (p : A -> bool) l i x :
  JS.find p l = Some (i, x) ->
  l !! i = Some x /\ p x = true /\ forall j y, j < i -> l !! j = Some y -> p y = false.
Proof.
  revert i. induction l as [|a l IH]; intros i; simpl; [discriminate |].
  destruct (p a) eqn:Ea.
  - intros [= <- <-]. repeat split; [exact Ea | intros j y Hj; lia].
  - destruct (JS.find p l) as [[i' y']|] eqn:Ef; [|discriminate].
    intros [= <- <-]. destruct (IH i' eq_refl) as (Hl & Hp & Hb).
    repeat split; [exact Hl | exact Hp |].
    intros [|j] y Hj; simpl.
    + intros [= <-]. exact Ea.
    + apply Hb. lia.
Qed.


End Primitives.

(** ** The reference engine parses back what it serialises *)

Section EngineLaw.
Import Engine.

(** White space, whether between tokens or as indentation, is skipped. *)
Lemma skip_ws_app ws s : all_ws ws -> skip_ws (ws ++ s) = skip_ws s.
Proof. induction 1 as [|c ws Hc _ IH]; simpl; [reflexivity |]. rewrite Hc. exact IH. Qed.

Lemma all_ws_spaces n : all_ws (repeat " "%char n).
Proof. induction n as [|n IH]; simpl; constructor; [reflexivity | exact IH]. Qed.

Lemma all_ws_break space level : all_ws (break space level).
Proof.
  unfold break. destruct space; [constructor |].
  constructor; [reflexivity | apply all_ws_spaces].
Qed.

Lemma parse_value_skip fuel ws s : all_ws ws -> parse_value fuel (ws ++ s) = parse_value fuel s.
Proof.
  intros Hws. destruct fuel; [reflexivity |]. simpl.
  rewrite (skip_ws_app _ _ Hws). reflexivity.
Qed.

(** Strings: each character reads back from its escaped form. *)
Lemma parse_string_escape_char c rest :
  parse_string (escape_char c ++ rest)
  = match parse_string rest with
    | Some (body, r) => Some (c :: body, r)
    | None => None
    end.
Proof.
  destruct c as [[] [] [] [] [] [] [] []]; reflexivity.
Qed.

Lemma parse_string_escape cs r :
  parse_string (escape cs ++ quote_c :: r) = Some (cs, r).
Proof.
  induction cs as [|c cs IH]; [reflexivity |].
  cbn [escape]. rewrite <- app_assoc, parse_string_escape_char, IH. reflexivity.
Qed.

(** Numbers: the digits of a literal read back, up to the first
    character that is not a digit. *)
Lemma parse_digits_uint u r : delimited r -> parse_digits (uint_digit_chars u ++ r) = (u, r).
Proof.
  intros Hr. induction u; simpl; try (rewrite IHu; reflexivity).
  destruct r as [|c r]; [reflexivity |]. simpl in *. rewrite Hr. reflexivity.
Qed.

Lemma uint_beq_refl u : Decimal.uint_beq u u = true.
Proof. induction u; simpl; auto. Qed.

Lemma unorm_to_uint n : Decimal.unorm (N.to_uint n) = N.to_uint n.
Proof.
  rewrite <- (DecimalN.Unsigned.to_of (N.to_uint n)).
  rewrite DecimalN.Unsigned.of_to. reflexivity.
Qed.

Lemma uint_digit_chars_head u :
  u <> Decimal.Nil ->
  exists c cs, uint_digit_chars u = c :: cs /\ In c (lit "0123456789").
Proof.
  destruct u; [congruence | ..]; intros _; simpl; eexists _, _; (split; [reflexivity |]);
    simpl; tauto.
Qed.

Lemma number_head z : exists c cs, number z = c :: cs /\ number_start c.
Proof.
  unfold number. destruct (z <? 0)%Z.
  - eexists _, _. split; [reflexivity |]. left. reflexivity.
  - destruct (uint_digit_chars_head (N.to_uint (Z.abs_N z))) as (c & cs & -> & Hc).
    + rewrite <- unorm_to_uint. apply DecimalFacts.unorm_nonnil.
    + exists c, cs. split; [reflexivity |]. right. exact Hc.
Qed.

Lemma parse_number_unsigned s :
  match s with c :: _ => Ascii.eqb c "-" = false | [] => True end ->
  parse_number s
  = let '(u, r) := parse_digits s in
    if Decimal.uint_beq (Decimal.unorm u) u then Some (Z.of_N (N.of_uint u), r) else None.
Proof.
  unfold parse_number. destruct s as [|c s]; [reflexivity |]. intros ->. reflexivity.
Qed.

Lemma parse_number_ok z r : delimited r -> parse_number (number z ++ r) = Some (z, r).
Proof.
  intros Hr. unfold number. destruct (z <? 0)%Z eqn:Hz.
  - unfold parse_number. cbn [app]. rewrite Ascii.eqb_refl.
    rewrite (parse_digits_uint _ _ Hr), unorm_to_uint, uint_beq_refl.
    rewrite DecimalN.Unsigned.of_to. f_equal. f_equal.
    apply Z.ltb_lt in Hz. rewrite N2Z.inj_abs_N. lia.
  - cbn [app]. rewrite parse_number_unsigned.
    + rewrite (parse_digits_uint _ _ Hr), unorm_to_uint, uint_beq_refl.
      rewrite DecimalN.Unsigned.of_to. f_equal. f_equal.
      apply Z.ltb_ge in Hz. rewrite N2Z.inj_abs_N. lia.
    + destruct (uint_digit_chars_head (N.to_uint (Z.abs_N z))) as (c & cs & -> & Hc).
      { rewrite <- unorm_to_uint. apply DecimalFacts.unorm_nonnil. }
      simpl in Hc. cbn [app].
      repeat destruct Hc as [<- | Hc]; try reflexivity. destruct Hc.
Qed.

Lemma parse_value_number_dispatch fuel c s :
  number_start c ->
  parse_value (S fuel) (c :: s)
  = match parse_number (c :: s) with
    | Some (z, r) => Some (VNum z, r)
    | None => None
    end.
Proof.
  unfold number_start. simpl.
  intros Hc. repeat destruct Hc as [<- | Hc]; try reflexivity. destruct Hc.
Qed.

Lemma parse_value_number fuel z r :
  delimited r -> parse_value (S fuel) (number z ++ r) = Some (VNum z, r).
Proof.
  intros Hr. pose proof (parse_number_ok z r Hr) as Hp.
  destruct (number_head z) as (c & cs & Hn & Hc).
  rewrite Hn in *. cbn [app] in *. rewrite (parse_value_number_dispatch _ _ _ Hc), Hp.
  reflexivity.
Qed.

(** Induction on values, through the lists nested in them. *)
Lemma value_nested_ind (P : value -> Prop) :
  P VUndefined -> P VNull -> (forall b, P (VBool b)) -> (forall z, P (VNum z)) ->
  (forall s, P (VStr s)) ->
  (forall elems, Forall P elems -> P (VArr elems)) ->
  (forall props, Forall (fun kv => P (snd kv)) props -> P (VObj props)) ->
  forall x, P x.
Proof.
  intros Hu Hn Hb Hz Hs Ha Ho.
  fix IH 1. intros [| |b|z|s|elems|props].
  - exact Hu.
  - exact Hn.
  - apply Hb.
  - apply Hz.
  - apply Hs.
  - apply Ha. induction elems as [|e elems IHe]; constructor; [apply IH | exact IHe].
  - apply Ho. induction props as [|[k e] props IHp]; constructor; [apply IH | exact IHp].
Qed.

Lemma is_ws_digit c : is_ws c = true -> digit_of c = None.
Proof.
  unfold is_ws. rewrite !orb_true_iff, !Ascii.eqb_eq.
  intros [[[-> | ->] | ->] | ->]; reflexivity.
Qed.

Lemma delimited_after_ws ws c r :
  all_ws ws -> digit_of c = None -> delimited (ws ++ c :: r).
Proof.
  intros Hws Hc. destruct Hws as [|w ws Hw _]; simpl; [exact Hc | apply is_ws_digit, Hw].
Qed.

Lemma skip_ws_stop c s : is_ws c = false -> skip_ws (c :: s) = c :: s.
Proof. intros Hc. simpl. rewrite Hc. reflexivity. Qed.

(** Lengths of joined items. *)
Lemma join_cons_cons sep x y items :
  join sep (x :: y :: items) = x ++ sep ++ join sep (y :: items).
Proof. reflexivity. Qed.

Lemma join_length_count sep items :
  length items <= S (length (join (","%char :: sep) items)).
Proof.
  induction items as [|x items IH]; [simpl; lia |].
  destruct items as [|y items]; [simpl; lia |].
  rewrite join_cons_cons, !length_app. simpl in *. lia.
Qed.

Lemma join_length_item sep items item :
  item ∈ items -> length item <= length (join sep items).
Proof.
  induction items as [|x items IH]; intros Hin; [inversion Hin |].
  destruct items as [|y items].
  - apply list_elem_of_singleton in Hin. subst. simpl. lia.
  - rewrite join_cons_cons, !length_app.
    apply elem_of_cons in Hin as [-> | Hin]; [lia |].
    specialize (IH Hin). lia.
Qed.

Lemma parse_elements_skip pv fuel ws s :
  (forall ws s, all_ws ws -> pv (ws ++ s) = pv s) ->
  all_ws ws -> parse_elements pv fuel (ws ++ s) = parse_elements pv fuel s.
Proof. intros Hpv Hws. destruct fuel; simpl; [reflexivity |]. rewrite Hpv by exact Hws. reflexivity. Qed.

(** Arrays: when each item reads back as its element, the joined items
    read back as the list of elements. *)
Lemma parse_elements_join pv sep_ws close_ws xs items r :
  all_ws sep_ws -> all_ws close_ws ->
  (forall ws s, all_ws ws -> pv (ws ++ s) = pv s) ->
  Forall2 (fun x item => forall r', delimited r' -> pv (item ++ r') = Some (x, r')) xs items ->
  xs <> [] ->
  forall fuel, length xs <= fuel ->
  parse_elements pv fuel (join (","%char :: sep_ws) items ++ close_ws ++ "]"%char :: r)
  = Some (xs, r).
Proof.
  intros Hsep Hclose Hpv Hall. induction Hall as [|x item xs items Hx Hall IH]; [congruence |].
  intros _ [|fuel] Hfuel; [simpl in Hfuel; lia |].
  destruct Hall as [|x2 item2 xs items Hx2 Hall].
  - cbn [join parse_elements]. rewrite Hx by (apply delimited_after_ws; [exact Hclose | reflexivity]).
    rewrite (skip_ws_app _ _ Hclose). reflexivity.
  - rewrite join_cons_cons, <- !app_assoc. cbn [parse_elements]. rewrite Hx by reflexivity.
    cbn [app]. rewrite skip_ws_stop by reflexivity.
    rewrite Ascii.eqb_refl, (parse_elements_skip _ _ _ _ Hpv Hsep).
    rewrite IH; [reflexivity | discriminate | simpl in *; lia].
Qed.

Lemma parse_members_skip pv fuel ws s :
  all_ws ws -> parse_members pv fuel (ws ++ s) = parse_members pv fuel s.
Proof. intros Hws. destruct fuel; simpl; [reflexivity |]. rewrite (skip_ws_app _ _ Hws). reflexivity. Qed.

Lemma parse_members_step pv fuel k rest :
  parse_members pv (S fuel) (quote k ++ ":"%char :: rest)
  = match pv rest with
    | Some (x, r3) =>
        match skip_ws r3 with
        | d :: r4 =>
            if Ascii.eqb d ","%char then
              match parse_members pv fuel r4 with
              | Some (kxs, r5) => Some ((k, x) :: kxs, r5)
              | None => None
              end
            else if Ascii.eqb d "}"%char then Some ([(k, x)], r4)
            else None
        | [] => None
        end
    | None => None
    end.
Proof.
  unfold quote. cbn [app]. rewrite <- app_assoc. cbn [app parse_members].
  rewrite skip_ws_stop by reflexivity.
  change (Ascii.eqb quote_c quote_c) with true. cbv iota.
  rewrite parse_string_escape. rewrite skip_ws_stop by reflexivity.
  change (Ascii.eqb ":" ":") with true. cbv iota.
  unfold lit. rewrite String.string_of_list_ascii_of_string. reflexivity.
Qed.

(** Objects: when the text of each member reads back as its value, the
    joined members read back as the list of properties. *)
Lemma parse_members_join pv sep_ws close_ws colon_ws kxs items r :
  all_ws sep_ws -> all_ws close_ws -> all_ws colon_ws ->
  (forall ws s, all_ws ws -> pv (ws ++ s) = pv s) ->
  Forall2 (fun kx item =>
             exists body, item = quote (fst kx) ++ (":"%char :: colon_ws) ++ body
                          /\ forall r', delimited r' -> pv (body ++ r') = Some (snd kx, r'))
    kxs items ->
  kxs <> [] ->
  forall fuel, length kxs <= fuel ->
  parse_members pv fuel (join (","%char :: sep_ws) items ++ close_ws ++ "}"%char :: r)
  = Some (kxs, r).
Proof.
  intros Hsep Hclose Hcolon Hpv Hall.
  induction Hall as [|[k x] item kxs items (body & -> & Hx) Hall IH]; [congruence |].
  intros _ [|fuel] Hfuel; [simpl in Hfuel; lia |].
  destruct Hall as [|kx2 item2 kxs items Hx2 Hall].
  - cbn [join fst snd] in *. rewrite <- !app_assoc. cbn [app].
    rewrite parse_members_step, (Hpv _ _ Hcolon).
    rewrite Hx by (apply delimited_after_ws; [exact Hclose | reflexivity]).
    rewrite (skip_ws_app _ _ Hclose). reflexivity.
  - rewrite join_cons_cons. cbn [fst snd] in *. rewrite <- !app_assoc. cbn [app].
    rewrite parse_members_step, (Hpv _ _ Hcolon).
    rewrite Hx by reflexivity.
    rewrite skip_ws_stop by reflexivity.
    rewrite Ascii.eqb_refl, (parse_members_skip _ _ _ _ Hsep).
    rewrite IH; [reflexivity | discriminate | simpl in *; lia].
Qed.

Lemma set_prop_fresh k x (o : obj) : k ∉ o.*1 -> JS.set_prop k x o = o ++ [(k, x)].
Proof.
  induction o as [|[k' x'] o IH]; simpl; [reflexivity |].
  intros Hnot. destruct (String.eqb k' k) eqn:E.
  - apply String.eqb_eq in E. subst. exfalso. apply Hnot. left.
  - rewrite IH; [reflexivity |]. intros Hin. apply Hnot. right. exact Hin.
Qed.

(** Defining properties with distinct, new keys appends them. *)
Lemma assign_all_NoDup (o ps : obj) :
  NoDup (o ++ ps).*1 -> JS.assign_all o ps = o ++ ps.
Proof.
  unfold JS.assign_all. revert o.
  induction ps as [|[k x] ps IH]; intros o Hnd; simpl; [rewrite app_nil_r; reflexivity |].
  rewrite set_prop_fresh.
  - rewrite IH; [rewrite <- app_assoc; reflexivity |].
    rewrite <- app_assoc. exact Hnd.
  - rewrite fmap_app in Hnd. apply NoDup_app in Hnd as (_ & Hdisj & _).
    intros Hin. apply (Hdisj _ Hin). rewrite fmap_cons. left.
Qed.

Lemma parse_value_array fuel rest :
  parse_value (S fuel) ("["%char :: rest)
  = match skip_ws rest with
    | c' :: rest' =>
        if Ascii.eqb c' "]"%char then Some (VArr [], rest')
        else
          match parse_elements (parse_value fuel) fuel rest with
          | Some (xs, r) => Some (VArr xs, r)
          | None => None
          end
    | [] => None
    end.
Proof. reflexivity. Qed.

Lemma parse_value_object fuel rest :
  parse_value (S fuel) ("{"%char :: rest)
  = match skip_ws rest with
    | c' :: rest' =>
        if Ascii.eqb c' "}"%char then Some (VObj [], rest')
        else
          match parse_members (parse_value fuel) fuel rest with
          | Some (kxs, r) => Some (VObj (JS.assign_all [] kxs), r)
          | None => None
          end
    | [] => None
    end.
Proof. reflexivity. Qed.

Lemma parse_value_string fuel s r :
  parse_value (S fuel) (quote s ++ r) = Some (VStr s, r).
Proof.
  unfold quote. cbn [app]. rewrite <- app_assoc. cbn [app parse_value].
  rewrite skip_ws_stop by reflexivity.
  change (Ascii.eqb quote_c "n") with false. change (Ascii.eqb quote_c "t") with false.
  change (Ascii.eqb quote_c "f") with false. change (Ascii.eqb quote_c quote_c) with true.
  cbv iota. rewrite parse_string_escape.
  unfold lit. rewrite String.string_of_list_ascii_of_string. reflexivity.
Qed.

(** The text of a value starts with a character that is neither white
    space nor a closing bracket. *)
Lemma serialize_head space level x body :
  serialize space level x = Some body ->
  exists c cs, body = c :: cs /\ is_ws c = false /\ Ascii.eqb c "]" = false.
Proof.
  destruct x as [| |[]|z|s|elems|props]; simpl; intros [= <-];
    try (eexists _, _; split; [reflexivity | split; reflexivity]).
  - destruct (number_head z) as (c & cs & -> & Hc). exists c, cs.
    split; [reflexivity |]. unfold number_start in Hc. simpl in Hc.
    repeat destruct Hc as [<- | Hc]; try (split; reflexivity). destruct Hc.
  - unfold bracket. destruct (map _ elems);
      eexists _, _; (split; [reflexivity | split; reflexivity]).
  - unfold bracket. destruct (omap _ props);
      eexists _, _; (split; [reflexivity | split; reflexivity]).
Qed.

Lemma serialize_Some space level x :
  jsonable x = true -> exists body, serialize space level x = Some body.
Proof. destruct x as [| |[]| | | |]; simpl; try discriminate; eauto. Qed.

Lemma join_head sep c cs items :
  exists tail, join sep ((c :: cs) :: items) = c :: tail.
Proof. destruct items; [exists cs; reflexivity | rewrite join_cons_cons; eexists; reflexivity]. Qed.

Lemma colon_split space : colon space = ":"%char :: colon_ws space.
Proof. destruct space; reflexivity. Qed.

Lemma all_ws_colon space : all_ws (colon_ws space).
Proof. destruct space; repeat constructor. Qed.

Lemma elements_parse space level f elems :
  Forall parses_back elems ->
  forallb jsonable elems = true ->
  (forall e b, e ∈ elems -> serialize space level e = Some b -> length b < f) ->
  Forall2 (fun x item => forall r', delimited r' -> parse_value f (item ++ r') = Some (x, r'))
    elems (map (fun e => default (lit "null") (serialize space level e)) elems).
Proof.
  induction 1 as [|e elems He _ IH]; intros Hj Hlen; simpl; constructor.
  - simpl in Hj. apply andb_true_iff in Hj as [Hje _].
    destruct (serialize_Some space level e Hje) as [b Hb]. rewrite Hb. simpl.
    intros r' Hr'. apply (He space level b Hje Hb); [|exact Hr'].
    apply (Hlen e b); [left | exact Hb].
  - simpl in Hj. apply andb_true_iff in Hj as [_ Hj]. apply IH; [exact Hj |].
    intros e' b' Hin. apply Hlen. right. exact Hin.
Qed.

Lemma members_parse space level f props :
  Forall (fun kv => parses_back (snd kv)) props ->
  forallb (fun kv => jsonable (snd kv)) props = true ->
  (forall kv b, kv ∈ props -> serialize space level (snd kv) = Some b -> length b < f) ->
  Forall2 (fun kx item =>
             exists body, item = quote (fst kx) ++ (":"%char :: colon_ws space) ++ body
                          /\ forall r', delimited r' ->
                                        parse_value f (body ++ r') = Some (snd kx, r'))
    props (omap (member_text space level) props).
Proof.
  induction 1 as [|[k e] props He _ IH]; intros Hj Hlen; simpl; [constructor |].
  simpl in Hj. apply andb_true_iff in Hj as [Hje Hj].
  destruct (serialize_Some space level e Hje) as [b Hb].
  unfold member_text at 1. simpl. rewrite Hb. constructor.
  - exists b. split; [rewrite colon_split; reflexivity |].
    intros r' Hr'. apply (He space level b Hje Hb); [|exact Hr'].
    apply (Hlen (k, e) b); [left | exact Hb].
  - apply IH; [exact Hj |]. intros kv b' Hin. apply Hlen. right. exact Hin.
Qed.

Lemma skip_to_head ws c cs (items : list chars) sep rest :
  all_ws ws -> is_ws c = false ->
  exists tail, skip_ws (ws ++ join sep ((c :: cs) :: items) ++ rest) = c :: tail.
Proof.
  intros Hws Hc. rewrite (skip_ws_app _ _ Hws).
  destruct (join_head sep c cs items) as [tail ->].
  cbn [app]. rewrite (skip_ws_stop _ _ Hc). eexists. reflexivity.
Qed.

Lemma bracket_length opening closing space level items :
  items <> [] ->
  length (bracket opening closing space level items)
  = 2 + length (break space (S level))
      + length (join (","%char :: break space (S level)) items)
      + length (break space level).
Proof.
  destruct items as [|x items]; [congruence |]. intros _.
  unfold bracket. cbn [length]. rewrite !length_app. simpl. lia.
Qed.

(** The text of a JSON value, at any nesting level and indentation,
    parses back to the value with enough fuel, whatever delimited text
    follows. *)
Theorem serialize_parses x : parses_back x.
Proof.
  induction x as [| |b|z|s|elems IH|props IH] using value_nested_ind;
    intros space level body Hj Hs [|f] Hfuel r Hr; try (simpl in Hfuel; lia).
  - discriminate.
  - injection Hs as <-. reflexivity.
  - destruct b; injection Hs as <-; reflexivity.
  - injection Hs as <-. apply parse_value_number, Hr.
  - injection Hs as <-. apply parse_value_string.
  - cbn [serialize] in Hs. injection Hs as <-.
    destruct elems as [|e0 elems]; [reflexivity |].
    rewrite bracket_length in Hfuel by discriminate.
    match type of Hfuel with context [map ?g _] => set (ser := g) in * end.
    assert (Hitems :
      Forall2 (fun x item => forall r', delimited r' ->
                 parse_value f (item ++ r') = Some (x, r'))
        (e0 :: elems) (map ser (e0 :: elems))).
    { apply elements_parse; [exact IH | exact Hj |].
      intros e b He Hb.
      assert (Hin : b ∈ map ser (e0 :: elems)).
      { apply list_elem_of_fmap. exists e. split; [|exact He]. unfold ser. rewrite Hb. reflexivity. }
      pose proof (join_length_item ("," :: break space (S level))%char _ _ Hin) as Hle. lia. }
    assert (Hcount : length (e0 :: elems) <= f).
    { pose proof (join_length_count (break space (S level)) (map ser (e0 :: elems))) as Hc.
      rewrite length_map in Hc. lia. }
    simpl in Hj. apply andb_true_iff in Hj as [Hj0 _].
    destruct (serialize_Some space (S level) e0 Hj0) as [b0 Hb0].
    destruct (serialize_head _ _ _ _ Hb0) as (c & cs & -> & Hc & Hclose).
    unfold bracket. cbn [map]. cbn [app]. rewrite <- !app_assoc. cbn [app].
    rewrite parse_value_array.
    assert (Hser0 : ser e0 = c :: cs) by (unfold ser; rewrite Hb0; reflexivity).
    destruct (skip_to_head (break space (S level)) c cs (map ser elems)
                ("," :: break space (S level))%char (break space level ++ "]"%char :: r)
                (all_ws_break _ _) Hc) as [tail Hhead].
    rewrite <- Hser0 in Hhead. rewrite Hhead, Hclose.
    rewrite (parse_elements_skip _ _ _ _
               (fun ws s => parse_value_skip f ws s) (all_ws_break _ _)).
    rewrite (parse_elements_join (parse_value f) _ _ (e0 :: elems) (map ser (e0 :: elems)) r
               (all_ws_break _ _) (all_ws_break _ _)
               (fun ws s => parse_value_skip f ws s) Hitems ltac:(discriminate) f Hcount).
    reflexivity.
  - cbn [serialize] in Hs. injection Hs as <-.
    destruct props as [|[k0 e0] props]; [reflexivity |].
    change (omap _ ((k0, e0) :: props))
      with (omap (member_text space (S level)) ((k0, e0) :: props)) in *.
    cbn [jsonable] in Hj. apply andb_true_iff in Hj as [Hj Hnd].
    apply bool_decide_eq_true in Hnd.
    pose proof Hj as Hj'. cbn [forallb snd] in Hj'. apply andb_true_iff in Hj' as [Hj0 _].
    destruct (serialize_Some space (S level) e0 Hj0) as [b0 Hb0].
    assert (Hne : omap (member_text space (S level)) ((k0, e0) :: props) <> []).
    { simpl. unfold member_text at 1. simpl. rewrite Hb0. discriminate. }
    rewrite bracket_length in Hfuel by exact Hne.
    assert (Hitems := fun Hlen =>
      members_parse space (S level) f ((k0, e0) :: props) IH Hj Hlen).
    assert (Hlen : forall kv b, kv ∈ (k0, e0) :: props ->
                     serialize space (S level) (snd kv) = Some b -> length b < f).
    { intros kv b Hkv Hb.
      assert (Hin : quote (fst kv) ++ colon space ++ b
                    ∈ omap (member_text space (S level)) ((k0, e0) :: props)).
      { apply list_elem_of_omap. exists kv. split; [exact Hkv |].
        unfold member_text. rewrite Hb. reflexivity. }
      pose proof (join_length_item ("," :: break space (S level))%char _ _ Hin) as Hle.
      rewrite !length_app in Hle. lia. }
    specialize (Hitems Hlen).
    assert (Hcount : length ((k0, e0) :: props) <= f).
    { pose proof (join_length_count (break space (S level))
                    (omap (member_text space (S level)) ((k0, e0) :: props))) as Hc.
      rewrite <- (Forall2_length _ _ _ Hitems) in Hc. lia. }
    unfold bracket.
    destruct (omap (member_text space (S level)) ((k0, e0) :: props)) as [|item0 items] eqn:Eitems;
      [congruence |].
    cbn [app]. rewrite <- !app_assoc. cbn [app].
    rewrite parse_value_object.
    assert (Hitem0 : exists cs, item0 = quote_c :: cs).
    { inversion Hitems as [|? ? ? ? (body & -> & _) _]; subst. unfold quote. eexists. reflexivity. }
    destruct Hitem0 as [cs Hitem0].
    destruct (skip_to_head (break space (S level)) quote_c cs items
                ("," :: break space (S level))%char (break space level ++ "}"%char :: r)
                (all_ws_break _ _) eq_refl) as [tail Hhead].
    rewrite <- Hitem0 in Hhead. rewrite Hhead.
    change (Ascii.eqb quote_c "}") with false. cbv iota.
    rewrite (parse_members_skip _ _ _ _ (all_ws_break _ _)).
    rewrite (parse_members_join (parse_value f) _ _ (colon_ws space)
               ((k0, e0) :: props) (item0 :: items) r
               (all_ws_break _ _) (all_ws_break _ _) (all_ws_colon _)
               (fun ws s => parse_value_skip f ws s) Hitems ltac:(discriminate) f Hcount).
    rewrite (assign_all_NoDup [] ((k0, e0) :: props) Hnd). reflexivity.
Qed.

(** The reference engine's [parse] inverts its [stringify] on JSON
    values. *)
Theorem parse_stringify space x :
  jsonable x = true -> parse (stringify space x) = Return x.
Proof.
  intros Hj. destruct (serialize_Some space 0 x Hj) as [body Hb].
  unfold parse, stringify, lit. rewrite Hb. simpl default.
  rewrite String.list_ascii_of_string_of_list_ascii.
  pose proof (serialize_parses x space 0 body Hj Hb (S (length body)) ltac:(lia) [] I) as Hp.
  rewrite app_nil_r in Hp. rewrite Hp. reflexivity.
Qed.

End EngineLaw.

(** ** Saving *)

Section Saving.
Context `{Json}.

Lemma updated_key_fresh v : storageKey v +:+ "_updated" <> storageKey v.
Proof. destruct v; vm_compute; discriminate. Qed.

Lemma topics_saveData v e m : topics (saveData v e m) = topics m.
Proof. destruct v; reflexivity. Qed.

Lemma storage_saveData_blob v e m :
  storage (saveData v e m) !! storageKey v
  = Some (JSON_stringify 0 (topics_value (topics m))).
Proof.
  destruct v; simpl; try apply lookup_insert_eq.
  rewrite lookup_insert_ne by apply (updated_key_fresh Shared).
  apply lookup_insert_eq.
Qed.

Lemma saveData_synced v e m : synced v (saveData v e m).
Proof. unfold synced. rewrite topics_saveData. apply storage_saveData_blob. Qed.

(** Running an operation either saves last, or changes nothing. *)
Lemma run_saves_or_skips v op e m :
  (exists m', state_after (run v op e m) m = saveData v e m')
  \/ state_after (run v op e m) m = m.
Proof.
  destruct op; simpl;
    unfold addTopic, updateTopic, deleteTopic, addContent, updateContent, deleteContent;
    unfold mbind, outcome_bind;
    repeat match goal with
      | |- context [match ?x with _ => _ end] => destruct x
      end;
    simpl; eauto.
Qed.

(** C1. For every listing, every mutating operation (addTopic,
    updateTopic, deleteTopic, addContent, updateContent, deleteContent)
    and every manager whose persisted blob is the JSON serialisation of
    its topics list, the blob is again the serialisation of the whole,
    possibly updated, topics list once the operation is over. *)
Theorem blob_synced_after_every_operation v op e m :
  synced v m -> synced v (state_after (run v op e m) m).
Proof.
  intros Hs. destruct (run_saves_or_skips v op e m) as [[m' ->] | ->].
  - apply saveData_synced.
  - exact Hs.
Qed.

(** C4 (as amended). [saveData] stores the blob under the storage key;
    the shared listing also stores a time stamp under the key with
    [_updated] appended; every other key of the store keeps its value,
    through [saveData] and through [loadData] alike. *)
Theorem saveData_frame v e m k :
  k <> storageKey v ->
  k <> storageKey v +:+ "_updated" ->
  storage (saveData v e m) !! k = storage m !! k
  /\ storage (saveData v e m) !! storageKey v
     = Some (JSON_stringify 0 (topics_value (topics m)))
  /\ storage (saveData v e m) !! (storageKey v +:+ "_updated")
     = match v with
       | Shared => Some (saved_iso e)
       | _ => storage m !! (storageKey v +:+ "_updated")
       end
  /\ forall f st, snd (loadData v f st) !! k = st !! k.
Proof.
  intros Hk Hu. split; [|split; [|split]].
  - destruct v; simpl; rewrite ?lookup_insert_ne; auto.
  - apply storage_saveData_blob.
  - destruct v; simpl;
      try (rewrite lookup_insert_ne; [reflexivity | apply not_eq_sym, (updated_key_fresh Home)]).
    apply lookup_insert_eq.
  - intros f st. destruct v; try reflexivity.
    unfold loadData, loadData_shared.
    destruct f as [|[] body]; simpl;
      try (destruct (stored Shared st); reflexivity).
    destruct (JSON_parse body); simpl.
    + apply lookup_insert_ne. auto.
    + destruct (stored Shared st); reflexivity.
Qed.

End Saving.

(** ** Topic operations *)

Section Topics.
Context `{Json}.

Lemma has_id_true id t : has_id id t = true <-> JS.get_own t "id" = VStr id.
Proof. apply strict_eq_str_true. Qed.

Lemma has_id_false id t : has_id id t = false <-> JS.get_own t "id" <> VStr id.
Proof. apply strict_eq_str_false. Qed.

Lemma filter_removes id ts :
  removes id ts (List.filter (fun t => negb (has_id id t)) ts).
Proof.
  induction ts as [|t ts IH]; simpl; [constructor |].
  destruct (has_id id t) eqn:E; simpl.
  - apply removes_drop; [apply has_id_true, E | exact IH].
  - apply removes_keep; [apply has_id_false, E | exact IH].
Qed.

Lemma removes_sublist id ts ts' : removes id ts ts' -> sublist ts' ts.
Proof.
  induction 1; [constructor | apply sublist_cons; assumption | apply sublist_skip; assumption].
Qed.

Lemma removes_functional id ts ts1 ts2 :
  removes id ts ts1 -> removes id ts ts2 -> ts1 = ts2.
Proof.
  intros H1. revert ts2. induction H1; intros ts2 H2; inversion H2; subst;
    try congruence; auto.
  f_equal. auto.
Qed.

(** C5. [deleteTopic(id)] leaves the topics list with exactly the
    topics whose id is [id] removed; the remaining topics are the
    original records, in their original order. *)
Theorem deleteTopic_removes_matching v id e m :
  exists m',
    deleteTopic v id e m = Return (VUndefined, m')
    /\ removes id (topics m) (topics m')
    /\ sublist (topics m') (topics m)
    /\ forall t, t ∈ topics m' <-> t ∈ topics m /\ JS.get_own t "id" <> VStr id.
Proof.
  eexists. split; [reflexivity |].
  rewrite topics_saveData. simpl.
  split; [apply filter_removes |].
  split; [eapply removes_sublist, filter_removes |].
  intros t. rewrite !list_elem_of_In, filter_In, negb_true_iff, has_id_false.
  reflexivity.
Qed.

(** C6 (as amended). [addTopic(name, description)] appends exactly one
    record to the end of the topics list: the id string [generateId]
    gives, which nothing compares with the ids already in the list, the
    given name, the given description or the empty string when none is
    given, an empty contents list and the creation stamp; the topics
    already there are unchanged, and the new record is what the call
    returns. *)
Theorem addTopic_appends v name description e m :
  let topic : obj :=
    [("id", VStr (generateId e));
     ("name", name);
     ("description", match description with VUndefined => VStr EmptyString | d => d end);
     ("contents", VArr []);
     ("createdAt", VStr (created_iso e))] in
  exists m',
    addTopic v name description e m = Return (VObj topic, m')
    /\ topics m' = topics m ++ [topic]
    /\ length (topics m') = S (length (topics m))
    /\ (forall i t, topics m !! i = Some t -> topics m' !! i = Some t)
    /\ topics m' !! length (topics m) = Some topic.
Proof.
  intros topic. eexists. split; [reflexivity |].
  rewrite topics_saveData.
  cbn [topics with_topics].
  split; [reflexivity |].
  split; [rewrite List.length_app; simpl; lia |].
  split.
  - intros i t Hi. apply lookup_app_l_Some. exact Hi.
  - rewrite lookup_app_r by lia. rewrite Nat.sub_diag. reflexivity.
Qed.

(** C8. An identifier is the base-36 rendering of the clock followed
    by the base-36 fraction digits of the random number, and two calls
    with different clock readings and different random numbers can
    produce the same identifier. *)
Theorem generateId_can_collide :
  (forall e, generateId e
             = JS.toString_radix 36 (now e)
                 +:+ JS.substr_from 2 (random_toString36 (random e)))
  /\ exists e1 e2,
       random_digits_ok (random e1) /\ random_digits_ok (random e2)
       /\ now e1 <> now e2 /\ random e1 <> random e2
       /\ generateId e1 = generateId e2.
Proof.
  split; [reflexivity |].
  exists {| now := 1; random := [0; 1]%N; created_iso := EmptyString; saved_iso := EmptyString |},
         {| now := 36; random := [1]%N; created_iso := EmptyString; saved_iso := EmptyString |}.
  unfold random_digits_ok. simpl.
  repeat split; try discriminate; try reflexivity;
    repeat constructor.
Qed.

End Topics.

(** ** Content operations *)

Section Contents.
Context `{Json}.




Lemma contents_array_Return t cs :
  JS.get_own t "contents" = VArr cs -> contents_array t = Return cs.
Proof. unfold contents_array. intros ->. reflexivity. Qed.

Lemma findIndex_none id cs :
  Forall (fun c => content_has_id id c = Return false) cs ->
  JS.findIndex (content_has_id id) cs = Return None.
Proof.
  induction 1 as [|c cs Hc _ IH]; simpl; [reflexivity |].
  rewrite Hc. simpl. rewrite IH. reflexivity.
Qed.


(** What [findIndex] found: the element at the index has the id and
    the scan met no throwing element on its way. *)
Lemma findIndex_Some id cs j :
  JS.findIndex (content_has_id id) cs = Return (Some j) ->
  exists c, cs !! j = Some c /\ content_has_id id c = Return true
            /\ forall j' c', j' < j -> cs !! j' = Some c' ->
                             content_has_id id c' = Return false.
Proof.
  revert j. induction cs as [|c cs IH]; intros j; simpl; [discriminate |].
  destruct (content_has_id id c) as [[|]|err] eqn:Ec; simpl; [| |discriminate].
  - intros [= <-]. exists c. repeat split; [exact Ec | intros j' c' Hj; lia].
  - destruct (JS.findIndex (content_has_id id) cs) as [[j0|]|err]; simpl; try discriminate.
    intros [= <-]. destruct (IH j0 eq_refl) as (c0 & Hl & Hc & Hb).
    exists c0. repeat split; [exact Hl | exact Hc |].
    intros [|j'] c' Hj; simpl.
    + intros [= <-]. exact Ec.
    + apply Hb. lia.
Qed.


Lemma lookup_rev_NoDup k (o : obj) :
  NoDup o.*1 -> JS.lookup_prop k (List.rev o) = JS.lookup_prop k o.
Proof.
  assert (Happ : forall l1 l2, JS.lookup_prop k (l1 ++ l2) =
            match JS.lookup_prop k l1 with
            | Some x => Some x
            | None => JS.lookup_prop k l2
            end).
  { induction l1 as [|[k1 x1] l1 IHl]; intros l2; simpl; [reflexivity |].
    destruct (String.eqb k1 k); [reflexivity | apply IHl]. }
  assert (Hnone : forall l, k ∉ l.*1 -> JS.lookup_prop k l = None).
  { induction l as [|[k1 x1] l IHl]; simpl; [reflexivity |].
    intros Hnot. destruct (String.eqb k1 k) eqn:E.
    - apply String.eqb_eq in E. subst. exfalso. apply Hnot. left.
    - apply IHl. intros Hin. apply Hnot. right. exact Hin. }
  induction o as [|[k0 x0] o IH]; simpl; [reflexivity |].
  intros Hnd. apply NoDup_cons in Hnd as [Hnot Hnd].
  rewrite Happ, (IH Hnd). simpl.
  destruct (String.eqb k0 k) eqn:E.
  - apply String.eqb_eq in E. subst. rewrite (Hnone _ Hnot). reflexivity.
  - destruct (JS.lookup_prop k o); reflexivity.
Qed.

(** C7. [updateContent(topicId, contentId, contentData)] on a topic
    that exists and holds a content with the id replaces that content,
    in place, by the shallow merge of the old record and [contentData]:
    every key of [contentData] has [contentData]'s value, every other
    key keeps its previous value; the other contents, the other
    properties of the topic and the other topics are unchanged. *)
Theorem updateContent_merges_in_place v topicId contentId contentData e m i topic cs j c :
  JS.find (has_id topicId) (topics m) = Some (i, topic) ->
  JS.get_own topic "contents" = VArr cs ->
  JS.findIndex (content_has_id contentId) cs = Return (Some j) ->
  cs !! j = Some c ->
  NoDup (JS.spread contentData).*1 ->
  exists merged topic' cs' m',
    updateContent v topicId contentId contentData e m = Return (VUndefined, m')
    /\ (forall k x, JS.lookup_prop k (JS.spread contentData) = Some x ->
                    JS.lookup_prop k merged = Some x)
    /\ (forall k, JS.lookup_prop k (JS.spread contentData) = None ->
                  JS.lookup_prop k merged = JS.lookup_prop k (JS.spread c))
    /\ cs' !! j = Some (VObj merged)
    /\ (forall j', j' <> j -> cs' !! j' = cs !! j')
    /\ length cs' = length cs
    /\ JS.get_own topic' "contents" = VArr cs'
    /\ (forall k, k <> "contents" -> JS.lookup_prop k topic' = JS.lookup_prop k topic)
    /\ topic'.*1 = topic.*1
    /\ topics m' !! i = Some topic'
    /\ (forall i', i' <> i -> topics m' !! i' = topics m !! i')
    /\ length (topics m') = length (topics m).
Proof.
  intros Hf Hcs Hj Hc Hnd.
  destruct (find_Some _ _ _ _ Hf) as (Hl & _ & _).
  set (merged := JS.assign_all (JS.spread c) (JS.spread contentData)).
  set (cs' := <[j := VObj merged]> cs).
  set (topic' := JS.set_prop "contents" (VArr cs') topic).
  exists merged, topic', cs', (saveData v e (with_topics (<[i := topic']> (topics m)) m)).
  split.
  { unfold updateContent. rewrite Hf, (contents_array_Return _ _ Hcs). simpl.
    rewrite Hj. simpl. rewrite Hc. reflexivity. }
  split.
  { intros k x Hk. unfold merged. rewrite lookup_assign_all, lookup_rev_NoDup, Hk by exact Hnd.
    reflexivity. }
  split.
  { intros k Hk. unfold merged. rewrite lookup_assign_all, lookup_rev_NoDup, Hk by exact Hnd.
    reflexivity. }
  split.
  { apply list_lookup_insert_eq. apply lookup_lt_Some in Hc. exact Hc. }
  split.
  { intros j' Hne. apply list_lookup_insert_ne. congruence. }
  split; [apply length_insert |].
  split; [apply get_own_set_prop_eq |].
  split.
  { intros k Hne. apply lookup_set_prop_ne. congruence. }
  split.
  { unfold topic'. assert (Hin : is_Some (JS.lookup_prop "contents" topic)).
    { unfold JS.get_own in Hcs. destruct (JS.lookup_prop "contents" topic); [eauto | discriminate]. }
    clear -Hin. induction topic as [|[k0 x0] o IH]; simpl in *.
    - destruct Hin as [? [=]].
    - revert Hin. destruct (String.eqb k0 "contents") eqn:E; intros Hin.
      + apply String.eqb_eq in E. subst. reflexivity.
      + rewrite !fmap_cons. f_equal. apply IH, Hin. }
  rewrite topics_saveData. cbn [topics with_topics].
  split.
  { apply list_lookup_insert_eq. apply lookup_lt_Some in Hl. exact Hl. }
  split.
  { intros i' Hne. apply list_lookup_insert_ne. congruence. }
  apply length_insert.
Qed.

End Contents.

(** ** Loading, export and import *)

Section Backup.
Context `{Json}.

Lemma sanitize_contents_array x t :
  sanitize x = Return t -> JS.isArray (JS.get_own t "contents") = true.
Proof.
  unfold sanitize. destruct (JS.get_prop x "contents") as [c|err]; simpl; [|discriminate].
  intros [= <-]. rewrite get_own_set_prop_eq.
  destruct (JS.isArray c) eqn:E; [exact E | reflexivity].
Qed.

Lemma mapM_Forall {A B} (f : A -> outcome B) (P : B -> Prop) l ys :
  (forall x y, f x = Return y -> P y) -> JS.mapM f l = Return ys -> Forall P ys.
Proof.
  intros Hf. revert ys. induction l as [|x l IH]; intros ys; simpl.
  - intros [= <-]. constructor.
  - destruct (f x) as [y|err] eqn:Ex; simpl; [|discriminate].
    destruct (JS.mapM f l) as [ys'|err]; simpl; [|discriminate].
    intros [= <-]. constructor; [eapply Hf, Ex | apply IH; reflexivity].
Qed.

Lemma sanitize_identity t :
  JS.isArray (JS.get_own t "contents") = true -> sanitize (VObj t) = Return t.
Proof.
  intros Harr. unfold sanitize. simpl. rewrite Harr. f_equal.
  apply set_prop_same. unfold JS.get_own in *.
  destruct (JS.lookup_prop "contents" t); [reflexivity | discriminate].
Qed.

Lemma mapM_sanitize_identity ts :
  Forall (fun t => JS.isArray (JS.get_own t "contents") = true) ts ->
  JS.mapM sanitize (map VObj ts) = Return ts.
Proof.
  induction 1 as [|t ts Ht _ IH]; [reflexivity |].
  cbn [JS.mapM map]. rewrite (sanitize_identity _ Ht), IH. reflexivity.
Qed.

(** The sanitizing loader recovers from text that [JSON.parse]
    rejects, and never throws. *)
Lemma loadData_sanitizing_recovers v st data err :
  stored v st = Some data -> JSON_parse data = Throw err ->
  loadData_sanitizing v st = Return (VArr []).
Proof. intros Hs Hp. unfold loadData_sanitizing. rewrite Hs, Hp. reflexivity. Qed.

Lemma loadData_sanitizing_total v st : exists x, loadData_sanitizing v st = Return x.
Proof.
  unfold loadData_sanitizing. destruct (stored v st); [|eauto].
  destruct (JSON_parse s) as [[]|]; simpl; eauto.
  destruct (JS.mapM sanitize elems); simpl; eauto.
Qed.

(** C3 (where the code departs from it). In the home, topic-page,
    single-page and shared listings the read of the store is not inside
    a [try]: a stored string that [JSON.parse] rejects makes [loadData]
    throw, and the store is left as it was. *)
Theorem loadData_without_try_propagates v st data err :
  v <> HomeBackup ->
  stored v st = Some data ->
  JSON_parse data = Throw err ->
  loadData v FetchFailed st = (Throw err, st).
Proof.
  intros Hv Hs Hp.
  destruct v; try congruence; unfold loadData, loadData_plain, loadData_shared;
    simpl; rewrite Hs, Hp; reflexivity.
Qed.

Lemma importData_total v text cb e m : exists r, importData v text cb e m = Return r.
Proof.
  unfold importData. destruct (JSON_parse text) as [[]|]; simpl; eauto.
  destruct (JS.mapM sanitize elems); simpl; eauto.
Qed.

(** C10. On text that is not JSON, or whose parsed value is not an
    array, [importData] leaves the topics list and the store as they
    were and reports failure through its callback; whenever it reports
    success, every topic of the new list has an array as [contents]. *)
Theorem importData_atomic v text cb e m :
  (forall err, JSON_parse text = Throw err ->
     importData v text cb e m
     = Return (m, notify cb false "Error reading file. Please select a valid JSON file."))
  /\ (forall x, JSON_parse text = Return x -> JS.isArray x = false ->
        importData v text cb e m
        = Return (m, notify cb false
                       "Invalid data format. Please select a valid backup file."))
  /\ (forall m' message,
        importData v text true e m = Return (m', Some (true, message)) ->
        Forall (fun t => JS.isArray (JS.get_own t "contents") = true) (topics m')).
Proof.
  unfold importData. split; [|split].
  - intros err ->. reflexivity.
  - intros x -> Hx. destruct x; try reflexivity; discriminate.
  - intros m' message.
    destruct (JSON_parse text) as [[]|]; simpl; try discriminate.
    destruct (JS.mapM sanitize elems) as [ts|] eqn:Ets; simpl; [|discriminate].
    intros [= <- _]. rewrite topics_saveData. cbn [topics with_topics].
    eapply mapM_Forall; [|exact Ets]. apply sanitize_contents_array.
Qed.



End Backup.

(** ** More on the topic operations *)

Section MoreTopics.
Context `{Json}.

Lemma find_insert {A} (p : A -> bool) l i x y :
  JS.find p l = Some (i, x) -> p y = true -> JS.find p (<[i := y]> l) = Some (i, y).
Proof.
  revert i. induction l as [|a l IH]; intros i; simpl; [discriminate |].
  destruct (p a) eqn:Ea.
  - intros [= <- <-] Hy. simpl. rewrite Hy. reflexivity.
  - destruct (JS.find p l) as [[i' x']|] eqn:Ef; [|discriminate].
    intros [= <- <-] Hy. simpl. rewrite Ea, (IH i' eq_refl Hy). reflexivity.
Qed.

Lemma find_app {A} (p : A -> bool) l1 l2 :
  snd <$> JS.find p (l1 ++ l2)
  = match JS.find p l1 with
    | Some (_, x) => Some x
    | None => snd <$> JS.find p l2
    end.
Proof.
  induction l1 as [|a l1 IH]; simpl.
  - destruct (JS.find p l2) as [[i x]|]; reflexivity.
  - destruct (p a); [reflexivity |].
    destruct (JS.find p (l1 ++ l2)) as [[i x]|], (JS.find p l1) as [[i1 x1]|];
      simpl in *; congruence.
Qed.

Lemma find_filter {A} (p q : A -> bool) l :
  (forall x, p x = true -> q x = true) ->
  snd <$> JS.find p (List.filter q l) = snd <$> JS.find p l.
Proof.
  intros Hpq. induction l as [|a l IH]; simpl; [reflexivity |].
  destruct (p a) eqn:Ea.
  - rewrite (Hpq a Ea). simpl. rewrite Ea. reflexivity.
  - destruct (q a); simpl; rewrite ?Ea;
      destruct (JS.find p (List.filter q l)) as [[i x]|], (JS.find p l) as [[i' x']|];
      simpl in *; congruence.
Qed.

Lemma find_filter_out {A} (p : A -> bool) l :
  JS.find p (List.filter (fun x => negb (p x)) l) = None.
Proof.
  induction l as [|a l IH]; simpl; [reflexivity |].
  destruct (p a) eqn:Ea; simpl; [exact IH |]. rewrite Ea, IH. reflexivity.
Qed.


Lemma has_id_distinct id id' t : id' <> id -> has_id id' t = true -> has_id id t = false.
Proof.
  intros Hne Ht. apply has_id_true in Ht. apply has_id_false. rewrite Ht. congruence.
Qed.

(** X3. [updateTopic] on an id some topic has overwrites [name] and
    [description] of the first such topic, in place: its other
    properties, its position and the other topics stay, and a later
    [getTopic(id)] gives the updated record. *)
Theorem updateTopic_overwrites_in_place v id name description e m i topic :
  JS.find (has_id id) (topics m) = Some (i, topic) ->
  exists topic' m',
    updateTopic v id name description e m = Return (VUndefined, m')
    /\ topics m' !! i = Some topic'
    /\ JS.get_own topic' "name" = name
    /\ JS.get_own topic' "description" = description
    /\ (forall k, k <> "name" -> k <> "description" ->
                  JS.lookup_prop k topic' = JS.lookup_prop k topic)
    /\ (forall i', i' <> i -> topics m' !! i' = topics m !! i')
    /\ length (topics m') = length (topics m)
    /\ getTopic id m' = Some topic'.
Proof.
  intros Hf. destruct (find_Some _ _ _ _ Hf) as (Hl & Hp & _).
  set (topic' := JS.set_prop "description" description (JS.set_prop "name" name topic)).
  exists topic', (saveData v e (with_topics (<[i := topic']> (topics m)) m)).
  assert (Hkeep : forall k, k <> "name" -> k <> "description" ->
                    JS.lookup_prop k topic' = JS.lookup_prop k topic).
  { intros k Hn Hd. unfold topic'.
    rewrite lookup_set_prop_ne by congruence. apply lookup_set_prop_ne. congruence. }
  split; [unfold updateTopic; rewrite Hf; reflexivity |].
  rewrite topics_saveData. cbn [topics with_topics].
  split; [apply list_lookup_insert_eq; apply lookup_lt_Some in Hl; exact Hl |].
  split; [unfold topic'; rewrite get_own_set_prop_ne by discriminate; apply get_own_set_prop_eq |].
  split; [apply get_own_set_prop_eq |].
  split; [exact Hkeep |].
  split; [intros i' Hne; apply list_lookup_insert_ne; congruence |].
  split; [apply length_insert |].
  unfold getTopic. rewrite topics_saveData. cbn [topics with_topics].
  rewrite (find_insert _ _ _ _ topic' Hf); [reflexivity |].
  unfold has_id, JS.get_own in *. rewrite Hkeep by discriminate. exact Hp.
Qed.

(** X4. After [deleteTopic(id)] no topic answers to [id], and
    [getTopic] of any other id gives what it gave before. *)
Theorem getTopic_after_deleteTopic v id e m :
  let m' := state_after (deleteTopic v id e m) m in
  getTopic id m' = None
  /\ forall id', id' <> id -> getTopic id' m' = getTopic id' m.
Proof.
  simpl. unfold getTopic. rewrite topics_saveData. cbn [topics with_topics]. split.
  - rewrite find_filter_out. reflexivity.
  - intros id' Hne. apply find_filter. intros t Ht.
    rewrite (has_id_distinct _ _ _ Hne Ht). reflexivity.
Qed.


(** X6. After [addTopic], [getTopic] of the new id gives the new record
    when no older topic has that id, and the older topic when one does;
    [getTopic] of any other id is unchanged. *)
Theorem getTopic_after_addTopic v name description e m :
  let m' := state_after (addTopic v name description e m) m in
  let topic : obj :=
    [("id", VStr (generateId e)); ("name", name);
     ("description", JS.default_param description (VStr EmptyString));
     ("contents", VArr []); ("createdAt", VStr (created_iso e))] in
  getTopic (generateId e) m'
  = match getTopic (generateId e) m with
    | Some older => Some older
    | None => Some topic
    end
  /\ forall id', id' <> generateId e -> getTopic id' m' = getTopic id' m.
Proof.
  simpl. unfold getTopic. rewrite topics_saveData. cbn [topics with_topics].
  rewrite !find_app. split.
  - destruct (JS.find (has_id (generateId e)) (topics m)) as [[i t]|]; [reflexivity |].
    simpl. unfold has_id. simpl. rewrite String.eqb_refl. reflexivity.
  - intros id' Hne. rewrite find_app.
    destruct (JS.find (has_id id') (topics m)) as [[i t]|]; [reflexivity |].
    simpl. unfold has_id. simpl.
    destruct (String.eqb (generateId e) id') eqn:E; [|reflexivity].
    apply String.eqb_eq in E. congruence.
Qed.

End MoreTopics.

(** ** More on the content operations *)

Section MoreContents.
Context `{Json}.

Lemma content_has_id_readable id c :
  readable c = true -> exists b, content_has_id id c = Return b.
Proof. destruct c; simpl; try discriminate; eauto. Qed.

Lemma content_has_id_true id c :
  content_has_id id c = Return true -> exists o, c = VObj o /\ JS.get_own o "id" = VStr id.
Proof.
  destruct c; simpl; try discriminate; intros [= Hb].
  exists props. split; [reflexivity |]. apply strict_eq_str_true, Hb.
Qed.

Lemma findIndex_total id cs :
  Forall (fun c => readable c = true) cs ->
  exists r, JS.findIndex (content_has_id id) cs = Return r.
Proof.
  induction 1 as [|c cs Hc _ [r IH]]; simpl; [eauto |].
  destruct (content_has_id_readable id c Hc) as [[|] ->]; simpl; [eauto |].
  rewrite IH. simpl. eauto.
Qed.

Lemma filterM_removes id cs :
  Forall (fun c => readable c = true) cs ->
  exists cs', JS.filterM (fun c => negb <$> content_has_id id c) cs = Return cs'
              /\ removes_content id cs cs'
              /\ sublist cs' cs
              /\ Forall (fun c => readable c = true) cs'.
Proof.
  induction 1 as [|c cs Hc _ (cs' & IH & Hrem & Hsub & Hall)]; simpl.
  - exists []. repeat split; constructor.
  - destruct (content_has_id_readable id c Hc) as [[|] Hb]; rewrite Hb; simpl; rewrite IH; simpl.
    + exists cs'. repeat split; [constructor; assumption | apply sublist_cons, Hsub | exact Hall].
    + exists (c :: cs'). repeat split;
        [apply removes_content_keep; assumption | apply sublist_skip, Hsub
        | constructor; assumption].
Qed.

Lemma found_in {A} (p : A -> bool) (P : A -> Prop) l i x :
  Forall P l -> JS.find p l = Some (i, x) -> P x.
Proof.
  intros Hall Hf. destruct (find_Some _ _ _ _ Hf) as (Hl & _ & _).
  eapply Forall_lookup_1; eassumption.
Qed.

Lemma keys_set_prop_present k x (o : obj) :
  is_Some (JS.lookup_prop k o) -> (JS.set_prop k x o).*1 = o.*1.
Proof.
  induction o as [|[k0 x0] o IH]; simpl; [intros [? [=]] |].
  destruct (String.eqb k0 k) eqn:E.
  - apply String.eqb_eq in E. subst. reflexivity.
  - intros Hin. rewrite !fmap_cons. f_equal. apply IH, Hin.
Qed.

Lemma workable_set_contents cs t :
  Forall (fun c => readable c = true) cs -> workable (JS.set_prop "contents" (VArr cs) t).
Proof. intros Hcs. exists cs. split; [apply get_own_set_prop_eq | exact Hcs]. Qed.

Lemma workable_set_other k x t :
  k <> "contents" -> workable t -> workable (JS.set_prop k x t).
Proof.
  intros Hk (cs & Hcs & Hall). exists cs. split; [|exact Hall].
  rewrite get_own_set_prop_ne by exact Hk. exact Hcs.
Qed.

(** On a store whose topics all have an array of readable elements as
    [contents], [run] returns, and the list it leaves is of the same
    kind: none of the manager's own exceptions is raised. *)
Theorem workable_store_never_throws v op e m :
  Forall workable (topics m) ->
  exists r m', run v op e m = Return (r, m') /\ Forall workable (topics m').
Proof.
  intros Hall. destruct op as [name description | id name description | id
                              | tid data | tid cid data | tid cid]; simpl.
  - eexists _, _. split; [reflexivity |]. rewrite topics_saveData. cbn [topics with_topics].
    apply Forall_app. split; [exact Hall |]. constructor; [|constructor].
    exists []. split; [reflexivity | constructor].
  - unfold updateTopic. destruct (JS.find (has_id id) (topics m)) as [[i t]|] eqn:Hf.
    + eexists _, _. split; [reflexivity |]. rewrite topics_saveData. cbn [topics with_topics].
      apply Forall_insert; [exact Hall |].
      apply workable_set_other; [discriminate |]. apply workable_set_other; [discriminate |].
      exact (found_in _ _ _ _ _ Hall Hf).
    + eexists _, _. split; [reflexivity | exact Hall].
  - eexists _, _. split; [reflexivity |]. rewrite topics_saveData. cbn [topics with_topics].
    apply Forall_forall. intros t Ht. apply list_elem_of_In, filter_In in Ht as [Ht _].
    apply list_elem_of_In in Ht. eapply Forall_forall in Hall; eassumption.
  - unfold addContent. destruct (JS.find (has_id tid) (topics m)) as [[i t]|] eqn:Hf.
    + destruct (found_in _ _ _ _ _ Hall Hf) as (cs & Hcs & Hr).
      rewrite (contents_array_Return _ _ Hcs). simpl.
      eexists _, _. split; [reflexivity |]. rewrite topics_saveData. cbn [topics with_topics].
      apply Forall_insert; [exact Hall |]. apply workable_set_contents.
      apply Forall_app. split; [exact Hr | repeat constructor].
    + eexists _, _. split; [reflexivity | exact Hall].
  - unfold updateContent. destruct (JS.find (has_id tid) (topics m)) as [[i t]|] eqn:Hf.
    + destruct (found_in _ _ _ _ _ Hall Hf) as (cs & Hcs & Hr).
      rewrite (contents_array_Return _ _ Hcs). simpl.
      destruct (findIndex_total cid cs Hr) as [[j|] ->]; simpl.
      * eexists _, _. split; [reflexivity |]. rewrite topics_saveData. cbn [topics with_topics].
        apply Forall_insert; [exact Hall |]. apply workable_set_contents.
        apply Forall_insert; [exact Hr | reflexivity].
      * eexists _, _. split; [reflexivity | exact Hall].
    + eexists _, _. split; [reflexivity | exact Hall].
  - unfold deleteContent. destruct (JS.find (has_id tid) (topics m)) as [[i t]|] eqn:Hf.
    + destruct (found_in _ _ _ _ _ Hall Hf) as (cs & Hcs & Hr).
      rewrite (contents_array_Return _ _ Hcs). simpl.
      destruct (filterM_removes cid cs Hr) as (cs' & -> & _ & _ & Hr'). simpl.
      eexists _, _. split; [reflexivity |]. rewrite topics_saveData. cbn [topics with_topics].
      apply Forall_insert; [exact Hall |]. apply workable_set_contents, Hr'.
    + eexists _, _. split; [reflexivity | exact Hall].
Qed.

(** X8. A content operation addressed at a topic whose [contents] is
    not an array throws a [TypeError], whatever its other arguments, and
    the manager stays as it was. *)
Theorem content_operations_need_an_array v topicId contentId contentData e m i topic :
  JS.find (has_id topicId) (topics m) = Some (i, topic) ->
  JS.isArray (JS.get_own topic "contents") = false ->
  addContent v topicId contentData e m = Throw TypeError
  /\ updateContent v topicId contentId contentData e m = Throw TypeError
  /\ deleteContent v topicId contentId e m = Throw TypeError
  /\ forall op, (op = AddContent topicId contentData
                 \/ op = UpdateContent topicId contentId contentData
                 \/ op = DeleteContent topicId contentId) ->
                state_after (run v op e m) m = m.
Proof.
  intros Hf Harr.
  assert (Hc : contents_array topic = Throw TypeError).
  { unfold contents_array. destruct (JS.get_own topic "contents"); try reflexivity; discriminate. }
  assert (Ha : addContent v topicId contentData e m = Throw TypeError)
    by (unfold addContent; rewrite Hf, Hc; reflexivity).
  assert (Hu : updateContent v topicId contentId contentData e m = Throw TypeError)
    by (unfold updateContent; rewrite Hf, Hc; reflexivity).
  assert (Hd : deleteContent v topicId contentId e m = Throw TypeError)
    by (unfold deleteContent; rewrite Hf, Hc; reflexivity).
  repeat split; try assumption.
  intros op [-> | [-> | ->]]; simpl; rewrite ?Ha, ?Hu, ?Hd; reflexivity.
Qed.

(** X1. [addContent] on a topic that exists and has an array as
    [contents] appends one record to the end of that array and returns
    it.  The record carries the creation stamp under [createdAt],
    whatever [contentData] says; under [id] it carries [contentData]'s
    id when [contentData] has one, the generated id otherwise; every
    other key is [contentData]'s.  The contents already there, the other
    properties of the topic and the other topics are unchanged. *)
Theorem addContent_appends v topicId contentData e m i topic cs :
  JS.find (has_id topicId) (topics m) = Some (i, topic) ->
  JS.get_own topic "contents" = VArr cs ->
  NoDup (JS.spread contentData).*1 ->
  exists content topic' m',
    addContent v topicId contentData e m = Return (VObj content, m')
    /\ JS.lookup_prop "createdAt" content = Some (VStr (created_iso e))
    /\ JS.lookup_prop "id" content
       = Some (default (VStr (generateId e)) (JS.lookup_prop "id" (JS.spread contentData)))
    /\ (forall k, k <> "id" -> k <> "createdAt" ->
                  JS.lookup_prop k content = JS.lookup_prop k (JS.spread contentData))
    /\ JS.get_own topic' "contents" = VArr (cs ++ [VObj content])
    /\ (forall k, k <> "contents" -> JS.lookup_prop k topic' = JS.lookup_prop k topic)
    /\ topics m' !! i = Some topic'
    /\ (forall i', i' <> i -> topics m' !! i' = topics m !! i')
    /\ length (topics m') = length (topics m).
Proof.
  intros Hf Hcs Hnd. destruct (find_Some _ _ _ _ Hf) as (Hl & _ & _).
  set (content := JS.set_prop "createdAt" (VStr (created_iso e))
                    (JS.assign_all [("id", VStr (generateId e))] (JS.spread contentData))).
  set (topic' := JS.set_prop "contents" (VArr (cs ++ [VObj content])) topic).
  exists content, topic', (saveData v e (with_topics (<[i := topic']> (topics m)) m)).
  split; [unfold addContent; rewrite Hf, (contents_array_Return _ _ Hcs); reflexivity |].
  split; [apply lookup_set_prop_eq |].
  split.
  { unfold content. rewrite lookup_set_prop_ne by discriminate.
    rewrite lookup_assign_all, lookup_rev_NoDup by exact Hnd.
    destruct (JS.lookup_prop "id" (JS.spread contentData)); reflexivity. }
  split.
  { intros k Hid Hcr. unfold content. rewrite lookup_set_prop_ne by congruence.
    rewrite lookup_assign_all, lookup_rev_NoDup by exact Hnd.
    destruct (JS.lookup_prop k (JS.spread contentData)); [reflexivity |].
    cbn [JS.lookup_prop]. destruct (String.eqb "id" k) eqn:E; [|reflexivity].
    apply String.eqb_eq in E. congruence. }
  split; [apply get_own_set_prop_eq |].
  split; [intros k Hk; apply lookup_set_prop_ne; congruence |].
  rewrite topics_saveData. cbn [topics with_topics].
  split; [apply list_lookup_insert_eq; apply lookup_lt_Some in Hl; exact Hl |].
  split; [intros i' Hne; apply list_lookup_insert_ne; congruence |].
  apply length_insert.
Qed.

(** X2. [deleteContent] on a topic that exists and whose [contents] is
    an array of readable elements leaves in it exactly the elements
    whose id is not [contentId], as they were and in order; the other
    properties of the topic and the other topics are unchanged. *)
Theorem deleteContent_removes_matching v topicId contentId e m i topic cs :
  JS.find (has_id topicId) (topics m) = Some (i, topic) ->
  JS.get_own topic "contents" = VArr cs ->
  Forall (fun c => readable c = true) cs ->
  exists cs' topic' m',
    deleteContent v topicId contentId e m = Return (VUndefined, m')
    /\ removes_content contentId cs cs'
    /\ sublist cs' cs
    /\ JS.findIndex (content_has_id contentId) cs' = Return None
    /\ JS.get_own topic' "contents" = VArr cs'
    /\ (forall k, k <> "contents" -> JS.lookup_prop k topic' = JS.lookup_prop k topic)
    /\ topics m' !! i = Some topic'
    /\ (forall i', i' <> i -> topics m' !! i' = topics m !! i')
    /\ length (topics m') = length (topics m).
Proof.
  intros Hf Hcs Hr. destruct (find_Some _ _ _ _ Hf) as (Hl & _ & _).
  destruct (filterM_removes contentId cs Hr) as (cs' & Hfm & Hrem & Hsub & _).
  set (topic' := JS.set_prop "contents" (VArr cs') topic).
  exists cs', topic', (saveData v e (with_topics (<[i := topic']> (topics m)) m)).
  split.
  { unfold deleteContent. rewrite Hf, (contents_array_Return _ _ Hcs). simpl.
    rewrite Hfm. reflexivity. }
  split; [exact Hrem |]. split; [exact Hsub |].
  split.
  { apply findIndex_none. clear -Hrem.
    induction Hrem; [constructor | assumption | constructor; assumption]. }
  split; [apply get_own_set_prop_eq |].
  split; [intros k Hk; apply lookup_set_prop_ne; congruence |].
  rewrite topics_saveData. cbn [topics with_topics].
  split; [apply list_lookup_insert_eq; apply lookup_lt_Some in Hl; exact Hl |].
  split; [intros i' Hne; apply list_lookup_insert_ne; congruence |].
  apply length_insert.
Qed.

End MoreContents.

(** ** More on loading and importing *)

Section MoreBackup.
Context `{Json}.


Lemma sanitize_unreadable x : readable x = false -> sanitize x = Throw TypeError.
Proof. destruct x; simpl; try discriminate; reflexivity. Qed.

Lemma sanitize_throws_TypeError x err : sanitize x = Throw err -> err = TypeError.
Proof. destruct x; simpl; try discriminate; intros [= <-]; reflexivity. Qed.

Lemma mapM_sanitize_unreadable elems :
  Exists (fun x => readable x = false) elems ->
  JS.mapM sanitize elems = Throw TypeError.
Proof.
  induction 1 as [x l Hx | x l _ IH]; cbn [JS.mapM].
  - rewrite (sanitize_unreadable _ Hx). reflexivity.
  - destruct (sanitize x) as [t|err] eqn:Es; simpl.
    + rewrite IH. reflexivity.
    + rewrite (sanitize_throws_TypeError _ _ Es). reflexivity.
Qed.



(** X11. The sanitizing loader never throws: whatever the store holds,
    it returns an array of objects, each with an array as [contents]. *)
Theorem loadData_sanitizing_shape v st :
  exists ts, loadData_sanitizing v st = Return (topics_value ts)
             /\ Forall (fun t => JS.isArray (JS.get_own t "contents") = true) ts.
Proof.
  unfold loadData_sanitizing.
  destruct (stored v st) as [data|]; [|exists []; split; [reflexivity | constructor]].
  destruct (JSON_parse data) as [[]|]; simpl;
    try (exists []; split; [reflexivity | constructor]).
  destruct (JS.mapM sanitize elems) as [ts|] eqn:Ets; simpl;
    [|exists []; split; [reflexivity | constructor]].
  exists ts. split; [reflexivity |].
  eapply mapM_Forall; [|exact Ets]. apply sanitize_contents_array.
Qed.

(** X12. One [null] among the elements of the parsed array is enough to
    lose the whole array: the sanitizing loader returns the empty list,
    and [importData] reports an unreadable file and changes nothing. *)
Theorem null_element_discards_all v text elems cb e m st :
  JSON_parse text = Return (VArr elems) ->
  Exists (fun x => readable x = false) elems ->
  (stored v st = Some text -> loadData_sanitizing v st = Return (VArr []))
  /\ importData v text cb e m
     = Return (m, notify cb false "Error reading file. Please select a valid JSON file.").
Proof.
  intros Hp Hex. pose proof (mapM_sanitize_unreadable _ Hex) as Hm. split.
  - intros Hs. unfold loadData_sanitizing. rewrite Hs, Hp. simpl. rewrite Hm. reflexivity.
  - unfold importData. rewrite Hp. simpl. rewrite Hm. reflexivity.
Qed.


(** X14. Sanitizing is idempotent: a record the sanitizer produced
    sanitizes to itself. *)
Theorem sanitize_idempotent x t : sanitize x = Return t -> sanitize (VObj t) = Return t.
Proof. intros Hs. apply sanitize_identity, (sanitize_contents_array _ _ Hs). Qed.

Lemma loadData_shared_fallback f st :
  (forall body data, f = FetchAnswer true body -> JSON_parse body <> Return data) ->
  loadData Shared f st = (loadData_plain Shared st, st).
Proof.
  unfold loadData, loadData_shared, loadData_plain.
  intros Hbad. destruct f as [|[] body]; simpl;
    try (destruct (stored Shared st); reflexivity).
  destruct (JSON_parse body) as [data|err] eqn:Hp; simpl.
  - exfalso. exact (Hbad body data eq_refl Hp).
  - destruct (stored Shared st); reflexivity.
Qed.


(** X9. Saving and loading compose to the identity: on an engine whose
    [JSON.parse] inverts its [JSON.stringify], which never gives the empty
    text, loading the store that [saveData] left returns the saved topics
    list, when that list is a JSON value, for the sanitizing loader when
    moreover each topic's [contents] is an array, and for the shared
    loader when no usable [data.json] is served. *)
Theorem load_after_save v f e m :
  (forall x, jsonable x = true -> JSON_parse (JSON_stringify 0 x) = Return x) ->
  (forall x, JSON_stringify 0 x <> EmptyString) ->
  jsonable (topics_value (topics m)) = true ->
  (v = HomeBackup -> Forall (fun t => JS.isArray (JS.get_own t "contents") = true) (topics m)) ->
  (forall body data, f = FetchAnswer true body -> JSON_parse body <> Return data) ->
  fst (loadData v f (storage (saveData v e m))) = Return (topics_value (topics m)).
Proof.
  intros Hlaw Hne Hj Harr Hfile.
  assert (Hst : stored v (storage (saveData v e m))
                = Some (JSON_stringify 0 (topics_value (topics m)))).
  { unfold stored. rewrite storage_saveData_blob.
    destruct (JSON_stringify 0 (topics_value (topics m))) eqn:E; [|reflexivity].
    exfalso. exact (Hne _ E). }
  assert (Hplain : loadData_plain v (storage (saveData v e m))
                   = Return (topics_value (topics m))).
  { unfold loadData_plain. rewrite Hst. apply Hlaw, Hj. }
  destruct v; try (unfold loadData; exact Hplain).
  - unfold loadData, loadData_sanitizing. cbn [fst]. rewrite Hst, (Hlaw _ Hj). simpl.
    rewrite (mapM_sanitize_identity _ (Harr eq_refl)). reflexivity.
  - rewrite (loadData_shared_fallback f _ Hfile). exact Hplain.
Qed.

End MoreBackup.

(** ** More on identifiers *)

Section MoreIds.

Lemma append_inj_r s a b : s +:+ a = s +:+ b -> a = b.
Proof.
  induction s as [|c s IH]; [intros Hab; exact Hab |].
  change (String c (s +:+ a) = String c (s +:+ b) -> a = b).
  intros [= Hab]. apply IH, Hab.
Qed.

Lemma random_suffix ds :
  JS.substr_from 2 (random_toString36 ds) = String.string_of_list_ascii (map JS.digit_char ds).
Proof. destruct ds; reflexivity. Qed.

Lemma digit_char_code d :
  (d < 36)%N ->
  N_of_ascii (JS.digit_char d) = if (d <? 10)%N then (48 + d)%N else (87 + d)%N.
Proof.
  intros Hd. unfold JS.digit_char.
  destruct (d <? 10)%N; apply N_ascii_embedding; lia.
Qed.

Lemma digit_char_inj d1 d2 :
  (d1 < 36)%N -> (d2 < 36)%N -> JS.digit_char d1 = JS.digit_char d2 -> d1 = d2.
Proof.
  intros H1 H2 Heq. apply (f_equal N_of_ascii) in Heq.
  rewrite !digit_char_code in Heq by assumption.
  destruct (d1 <? 10)%N eqn:E1, (d2 <? 10)%N eqn:E2;
    rewrite ?N.ltb_lt, ?N.ltb_ge in *; lia.
Qed.

Lemma digit_chars_inj ds1 ds2 :
  Forall (fun d => (d < 36)%N) ds1 -> Forall (fun d => (d < 36)%N) ds2 ->
  map JS.digit_char ds1 = map JS.digit_char ds2 -> ds1 = ds2.
Proof.
  intros H1. revert ds2. induction H1 as [|d1 ds1 Hd1 _ IH]; intros ds2 H2 Heq.
  - destruct ds2; [reflexivity | discriminate].
  - destruct H2 as [|d2 ds2 Hd2 H2]; [discriminate |].
    simpl in Heq. injection Heq as Hd Hds.
    f_equal; [apply digit_char_inj; assumption | apply IH; assumption].
Qed.

(** X17. Within one reading of the clock, two identifiers are equal
    only when the random numbers are: the base-36 digits of the random
    number can be read back from the identifier. *)
Theorem generateId_injective_per_tick e1 e2 :
  now e1 = now e2 ->
  Forall (fun d => (d < 36)%N) (random e1) ->
  Forall (fun d => (d < 36)%N) (random e2) ->
  generateId e1 = generateId e2 ->
  random e1 = random e2.
Proof.
  intros Hnow H1 H2. unfold generateId. rewrite Hnow, !random_suffix.
  intros Heq. apply append_inj_r in Heq.
  apply (f_equal String.list_ascii_of_string) in Heq.
  rewrite !String.list_ascii_of_string_of_list_ascii in Heq.
  apply digit_chars_inj; assumption.
Qed.

End MoreIds.

(** ** The form handlers *)

Section Forms.
Context `{Json}.
Import Page.

Lemma truthy_iff s : truthy s = true <-> s <> EmptyString.
Proof. destruct s; simpl; split; congruence. Qed.

Lemma trim_end_cons c rest :
  trim_end (String c rest)
  = match trim_end rest with
    | EmptyString => if is_space c then EmptyString else String c EmptyString
    | rest' => String c rest'
    end.
Proof. reflexivity. Qed.

Lemma trim_end_idempotent s : trim_end (trim_end s) = trim_end s.
Proof.
  induction s as [|c s IH]; [reflexivity |]. rewrite trim_end_cons.
  destruct (trim_end s) as [|c' s'] eqn:E.
  - destruct (is_space c) eqn:Ec; [reflexivity |]. rewrite trim_end_cons. simpl.
    rewrite Ec. reflexivity.
  - rewrite trim_end_cons, IH. reflexivity.
Qed.

Lemma trim_start_head s c rest : trim_start s = String c rest -> is_space c = false.
Proof.
  induction s as [|a s IH]; simpl; [discriminate |].
  destruct (is_space a) eqn:Ea; [exact IH |]. intros [= <- _]. exact Ea.
Qed.

Lemma trim_end_head c rest :
  is_space c = false -> exists rest', trim_end (String c rest) = String c rest'.
Proof.
  intros Hc. rewrite trim_end_cons. destruct (trim_end rest); [rewrite Hc |]; eauto.
Qed.

Lemma trim_head s c rest : trim s = String c rest -> is_space c = false.
Proof.
  unfold trim. destruct (trim_start s) as [|a t] eqn:E; [discriminate |].
  pose proof (trim_start_head _ _ _ E) as Ha.
  destruct (trim_end_head a t Ha) as [rest' ->]. intros [= <- _]. exact Ha.
Qed.

(** Trimming what was trimmed changes nothing. *)
Lemma trim_idempotent s : trim (trim s) = trim s.
Proof.
  destruct (trim s) as [|c rest] eqn:E; [reflexivity |].
  pose proof (trim_head _ _ _ E) as Hc. unfold trim in *.
  cbn [trim_start]. rewrite Hc, <- E. apply trim_end_idempotent.
Qed.

Lemma collect_subtopics_clean inputs :
  Forall (fun s => s <> EmptyString /\ trim s = s) (collect_subtopics inputs).
Proof.
  unfold collect_subtopics. induction inputs as [|a inputs IH]; simpl; [constructor |].
  destruct (truthy (trim a)) eqn:E; [|exact IH].
  constructor; [|exact IH]. split; [apply truthy_iff, E | apply trim_idempotent].
Qed.

Lemma collect_links_clean rows :
  Forall (fun link => fst link <> EmptyString /\ snd link <> EmptyString
                      /\ trim (fst link) = fst link /\ trim (snd link) = snd link)
    (collect_links rows).
Proof.
  unfold collect_links. induction rows as [|[l u] rows IH]; simpl; [constructor |].
  destruct (truthy (trim l) && truthy (trim u)) eqn:E; [|exact IH].
  apply andb_true_iff in E as [El Eu]. constructor; [|exact IH]. simpl.
  repeat split; try (apply truthy_iff; assumption); apply trim_idempotent.
Qed.

Lemma jsonable_strings l : forallb jsonable (map VStr l) = true.
Proof. induction l; simpl; [reflexivity | assumption]. Qed.

Lemma jsonable_links (l : list (string * string)) :
  forallb jsonable
    (map (fun link => VObj [("label", VStr (fst link)); ("url", VStr (snd link))]) l) = true.
Proof. induction l as [|a l IH]; [reflexivity |]. cbn [map forallb]. rewrite IH. reflexivity. Qed.

Lemma jsonable_contentData form : jsonable (contentData_of form) = true.
Proof.
  unfold contentData_of. cbn [jsonable forallb snd].
  rewrite jsonable_strings, jsonable_links.
  destruct (preview_src form) as [s|]; simpl; [destruct (truthy s) |]; reflexivity.
Qed.

(** X15. The record the content form builds has the five keys [title],
    [description], [subtopics], [links] and [image], each once, and is a
    JSON value; no subtopic in it is empty or has white space around it,
    and every link in it has a label and a url, both non-empty and
    without white space around them. *)
Theorem contentData_is_clean form :
  (JS.spread (contentData_of form)).*1
  = ["title"; "description"; "subtopics"; "links"; "image"]
  /\ jsonable (contentData_of form) = true
  /\ JS.get_own (JS.spread (contentData_of form)) "subtopics"
     = VArr (map VStr (collect_subtopics (subtopic_inputs form)))
  /\ Forall (fun s => s <> EmptyString /\ trim s = s) (collect_subtopics (subtopic_inputs form))
  /\ JS.get_own (JS.spread (contentData_of form)) "links"
     = VArr (map (fun link => VObj [("label", VStr (fst link)); ("url", VStr (snd link))])
               (collect_links (link_inputs form)))
  /\ Forall (fun link => fst link <> EmptyString /\ snd link <> EmptyString
                         /\ trim (fst link) = fst link /\ trim (snd link) = snd link)
       (collect_links (link_inputs form)).
Proof.
  split; [reflexivity |]. split; [apply jsonable_contentData |].
  split; [reflexivity |]. split; [apply collect_subtopics_clean |].
  split; [reflexivity | apply collect_links_clean].
Qed.

Lemma contentData_keys form k :
  k <> "title" -> k <> "description" -> k <> "subtopics" -> k <> "links" -> k <> "image" ->
  JS.lookup_prop k (JS.spread (contentData_of form)) = None.
Proof.
  intros H1 H2 H3 H4 H5. cbn [JS.spread contentData_of JS.lookup_prop].
  repeat match goal with
    | |- context [String.eqb ?a k] =>
        destruct (String.eqb a k) eqn:?E;
          [apply String.eqb_eq in E; congruence | clear E]
    end.
  reflexivity.
Qed.

Lemma NoDup_contentData form : NoDup (JS.spread (contentData_of form)).*1.
Proof. apply (bool_decide_unpack _). vm_compute. exact I. Qed.

(** X16. Submitting the content form in edit mode on a card that is
    there replaces the card, in place, by one that keeps the card's [id],
    [createdAt] and every other key the form does not carry, and takes
    the five form fields from the form. *)
Theorem form_edit_keeps_identity v topicId contentId form e m i topic cs j c :
  truthy contentId = true ->
  JS.find (has_id topicId) (topics m) = Some (i, topic) ->
  JS.get_own topic "contents" = VArr cs ->
  JS.findIndex (content_has_id contentId) cs = Return (Some j) ->
  cs !! j = Some c ->
  exists merged topic' cs' m',
    handleContentSubmit v topicId (Some contentId) form e m = Return (VUndefined, m')
    /\ topics m' !! i = Some topic'
    /\ JS.get_own topic' "contents" = VArr cs'
    /\ cs' !! j = Some (VObj merged)
    /\ JS.lookup_prop "id" merged = Some (VStr contentId)
    /\ JS.lookup_prop "createdAt" merged = JS.lookup_prop "createdAt" (JS.spread c)
    /\ (forall k, k <> "title" -> k <> "description" -> k <> "subtopics" ->
                  k <> "links" -> k <> "image" ->
                  JS.lookup_prop k merged = JS.lookup_prop k (JS.spread c))
    /\ (forall k x, JS.lookup_prop k (JS.spread (contentData_of form)) = Some x ->
                    JS.lookup_prop k merged = Some x).
Proof.
  intros Hcid Hf Hcs Hj Hc.
  destruct (find_Some _ _ _ _ Hf) as (Hl & _ & _).
  set (merged := JS.assign_all (JS.spread c) (JS.spread (contentData_of form))).
  set (cs' := <[j := VObj merged]> cs).
  set (topic' := JS.set_prop "contents" (VArr cs') topic).
  exists merged, topic', cs', (saveData v e (with_topics (<[i := topic']> (topics m)) m)).
  assert (Hkeep : forall k, k <> "title" -> k <> "description" -> k <> "subtopics" ->
                    k <> "links" -> k <> "image" ->
                    JS.lookup_prop k merged = JS.lookup_prop k (JS.spread c)).
  { intros k H1 H2 H3 H4 H5. unfold merged.
    rewrite lookup_assign_all, lookup_rev_NoDup by apply NoDup_contentData.
    rewrite contentData_keys by assumption. reflexivity. }
  split.
  { unfold handleContentSubmit. rewrite Hcid. unfold updateContent.
    rewrite Hf, (contents_array_Return _ _ Hcs). simpl. rewrite Hj. simpl. rewrite Hc.
    reflexivity. }
  rewrite topics_saveData. cbn [topics with_topics].
  split; [apply list_lookup_insert_eq; apply lookup_lt_Some in Hl; exact Hl |].
  split; [apply get_own_set_prop_eq |].
  split; [apply list_lookup_insert_eq; apply lookup_lt_Some in Hc; exact Hc |].
  split.
  { rewrite Hkeep by discriminate.
    destruct (findIndex_Some _ _ _ Hj) as (c0 & Hc0 & Hid & _).
    rewrite Hc in Hc0. injection Hc0 as <-.
    destruct c; simpl in Hid; try discriminate. injection Hid as Hid.
    apply strict_eq_str_true in Hid. simpl. unfold JS.get_own in Hid.
    destruct (JS.lookup_prop "id" props); simpl in Hid; [congruence | discriminate]. }
  split; [apply Hkeep; discriminate |].
  split; [exact Hkeep |].
  intros k x Hk. unfold merged.
  rewrite lookup_assign_all, lookup_rev_NoDup, Hk by apply NoDup_contentData. reflexivity.
Qed.

End Forms.

(** ** The store stays a JSON value *)

Section KeepsJson.
Context `{Json}.

Lemma jsonable_arr l :
  jsonable (VArr l) = true <-> Forall (fun x => jsonable x = true) l.
Proof.
  cbn [jsonable]. induction l as [|x l IH]; simpl.
  - split; [constructor | reflexivity].
  - rewrite andb_true_iff, IH. split.
    + intros [Hx Hl]. constructor; assumption.
    + intros Hall. inversion Hall; subst. split; assumption.
Qed.

Lemma jsonable_obj (o : obj) :
  jsonable (VObj o) = true
  <-> Forall (fun kv => jsonable (snd kv) = true) o /\ NoDup o.*1.
Proof.
  cbn [jsonable]. rewrite andb_true_iff, bool_decide_eq_true.
  assert (Hall : forallb (fun kv => jsonable (snd kv)) o = true
                 <-> Forall (fun kv => jsonable (snd kv) = true) o).
  { induction o as [|kv o IH]; simpl.
    - split; [constructor | reflexivity].
    - rewrite andb_true_iff, IH. split.
      + intros [Hx Hl]. constructor; assumption.
      + intros Hf. inversion Hf; subst. split; assumption. }
  rewrite Hall. reflexivity.
Qed.

Lemma jsonable_topics ts :
  jsonable (topics_value ts) = true <-> Forall (fun t => jsonable (VObj t) = true) ts.
Proof.
  unfold topics_value. rewrite jsonable_arr, Forall_fmap. reflexivity.
Qed.

Lemma lookup_keys k (o : obj) : is_Some (JS.lookup_prop k o) <-> k ∈ o.*1.
Proof.
  induction o as [|[k0 x0] o IH]; simpl.
  - split; [intros [? [=]] | intros Hin; inversion Hin].
  - rewrite elem_of_cons. destruct (String.eqb k0 k) eqn:E.
    + apply String.eqb_eq in E. subst. split; [left; reflexivity | eauto].
    + apply String.eqb_neq in E. rewrite IH. split; [right; assumption |].
      intros [-> | Hin]; [congruence | exact Hin].
Qed.

Lemma lookup_jsonable k (o : obj) x :
  jsonable (VObj o) = true -> JS.lookup_prop k o = Some x -> jsonable x = true.
Proof.
  rewrite jsonable_obj. intros [Hall _]. induction Hall as [|[k0 x0] o H0 _ IH]; simpl;
    [discriminate |].
  destruct (String.eqb k0 k); [intros [= <-]; exact H0 | exact IH].
Qed.

Lemma set_prop_values (P : value -> Prop) k x (o : obj) :
  Forall (fun kv => P (snd kv)) o -> P x -> Forall (fun kv => P (snd kv)) (JS.set_prop k x o).
Proof.
  intros Hall Hx. induction Hall as [|[k0 x0] o H0 Hall IH]; simpl.
  - repeat constructor. exact Hx.
  - destruct (String.eqb k0 k); constructor; assumption.
Qed.

Lemma set_prop_keys k x (o : obj) : NoDup o.*1 -> NoDup (JS.set_prop k x o).*1.
Proof.
  intros Hnd. destruct (decide (k ∈ o.*1)) as [Hin | Hnot].
  - rewrite keys_set_prop_present; [exact Hnd | apply lookup_keys, Hin].
  - rewrite set_prop_fresh by exact Hnot. rewrite fmap_app. simpl.
    apply NoDup_app. split; [exact Hnd |]. split.
    + intros k' Hk' Hin. apply list_elem_of_singleton in Hin. subst. contradiction.
    + apply NoDup_singleton.
Qed.

Lemma jsonable_set_prop k x (o : obj) :
  jsonable (VObj o) = true -> jsonable x = true -> jsonable (VObj (JS.set_prop k x o)) = true.
Proof.
  rewrite !jsonable_obj. intros [Hall Hnd] Hx. split.
  - apply (set_prop_values (fun y => jsonable y = true)); assumption.
  - apply set_prop_keys, Hnd.
Qed.

Lemma jsonable_assign_all (o ps : obj) :
  jsonable (VObj o) = true ->
  Forall (fun kv => jsonable (snd kv) = true) ps ->
  jsonable (VObj (JS.assign_all o ps)) = true.
Proof.
  unfold JS.assign_all. intros Ho Hps. revert o Ho.
  induction Hps as [|[k x] ps Hx _ IH]; intros o Ho; simpl; [exact Ho |].
  apply IH, jsonable_set_prop; assumption.
Qed.

Lemma found_jsonable ts p i (t : obj) :
  Forall (fun t => jsonable (VObj t) = true) ts -> JS.find p ts = Some (i, t) ->
  jsonable (VObj t) = true.
Proof.
  intros Hall Hf. destruct (find_Some _ _ _ _ Hf) as (Hl & _ & _).
  exact (Forall_lookup_1 _ _ _ _ Hall Hl).
Qed.

Lemma contents_jsonable (t : obj) cs :
  jsonable (VObj t) = true -> contents_array t = Return cs ->
  Forall (fun c => jsonable c = true) cs.
Proof.
  intros Ht. unfold contents_array, JS.get_own.
  destruct (JS.lookup_prop "contents" t) as [x|] eqn:E; simpl; [|discriminate].
  destruct x; try discriminate. intros [= <-].
  apply jsonable_arr. eapply lookup_jsonable; eassumption.
Qed.

Lemma filterM_sub {A} (p : A -> outcome bool) (P : A -> Prop) l l' :
  Forall P l -> JS.filterM p l = Return l' -> Forall P l'.
Proof.
  intros Hall. revert l'. induction Hall as [|x l Hx _ IH]; intros l'; simpl.
  - intros [= <-]. constructor.
  - destruct (p x) as [b|]; simpl; [|discriminate].
    destruct (JS.filterM p l) as [r|]; simpl; [|discriminate].
    intros [= <-]. destruct b; [constructor; [exact Hx |] |]; apply IH; reflexivity.
Qed.

Lemma run_keeps_json v op e m :
  jsonable (topics_value (topics m)) = true ->
  carries_json op ->
  jsonable (topics_value (topics (state_after (run v op e m) m))) = true.
Proof.
  rewrite !jsonable_topics. intros Hall Hop.
  destruct op as [name description | id name description | id
                 | tid data | tid cid data | tid cid]; simpl in *.
  - rewrite topics_saveData. cbn [topics with_topics].
    apply Forall_app. split; [exact Hall |]. constructor; [|constructor].
    destruct Hop as [Hn Hd]. apply jsonable_obj. split.
    + repeat constructor; simpl; try assumption.
      destruct Hd as [-> | Hd]; [reflexivity |]. destruct description; try assumption.
      discriminate.
    + apply (bool_decide_unpack _). vm_compute. exact I.
  - unfold updateTopic. destruct (JS.find (has_id id) (topics m)) as [[i t]|] eqn:Hf;
      [|exact Hall].
    simpl. rewrite topics_saveData. cbn [topics with_topics]. destruct Hop as [Hn Hd].
    apply Forall_insert; [exact Hall |].
    apply jsonable_set_prop; [|exact Hd]. apply jsonable_set_prop; [|exact Hn].
    exact (found_jsonable _ _ _ _ Hall Hf).
  - rewrite topics_saveData. cbn [topics with_topics].
    apply Forall_forall. intros t Ht. apply list_elem_of_In, filter_In in Ht as [Ht _].
    apply list_elem_of_In in Ht. eapply Forall_forall in Hall; eassumption.
  - unfold addContent. destruct (JS.find (has_id tid) (topics m)) as [[i t]|] eqn:Hf;
      [|exact Hall].
    pose proof (found_jsonable _ _ _ _ Hall Hf) as Ht.
    destruct (contents_array t) as [cs|] eqn:Hcs; simpl; [|exact Hall].
    rewrite topics_saveData. cbn [topics with_topics].
    apply Forall_insert; [exact Hall |]. apply jsonable_set_prop; [exact Ht |].
    apply jsonable_arr, Forall_app. split; [eapply contents_jsonable; eassumption |].
    constructor; [|constructor]. apply jsonable_set_prop; [|reflexivity].
    apply jsonable_assign_all; [reflexivity | exact Hop].
  - unfold updateContent. destruct (JS.find (has_id tid) (topics m)) as [[i t]|] eqn:Hf;
      [|exact Hall].
    pose proof (found_jsonable _ _ _ _ Hall Hf) as Ht.
    destruct (contents_array t) as [cs|] eqn:Hcs; simpl; [|exact Hall].
    pose proof (contents_jsonable _ _ Ht Hcs) as Hjcs.
    destruct (JS.findIndex (content_has_id cid) cs) as [[j|]|] eqn:Hj; simpl;
      try exact Hall.
    rewrite topics_saveData. cbn [topics with_topics].
    apply Forall_insert; [exact Hall |]. apply jsonable_set_prop; [exact Ht |].
    apply jsonable_arr, Forall_insert; [exact Hjcs |].
    destruct (findIndex_Some _ _ _ Hj) as (c & Hc & Hid & _). rewrite Hc. simpl.
    destruct (content_has_id_true _ _ Hid) as (o & -> & _).
    apply jsonable_assign_all; [|exact Hop].
    exact (Forall_lookup_1 _ _ _ _ Hjcs Hc).
  - unfold deleteContent. destruct (JS.find (has_id tid) (topics m)) as [[i t]|] eqn:Hf;
      [|exact Hall].
    pose proof (found_jsonable _ _ _ _ Hall Hf) as Ht.
    destruct (contents_array t) as [cs|] eqn:Hcs; simpl; [|exact Hall].
    destruct (JS.filterM _ cs) as [kept|] eqn:Hk; simpl; [|exact Hall].
    rewrite topics_saveData. cbn [topics with_topics].
    apply Forall_insert; [exact Hall |]. apply jsonable_set_prop; [exact Ht |].
    apply jsonable_arr. eapply filterM_sub; [|exact Hk].
    eapply contents_jsonable; eassumption.
Qed.

(** X18. When the topics list is a JSON value and an operation is given
    JSON values (a description left out of [addTopic] included), the
    topics list after the operation is a JSON value again. *)
Theorem operations_keep_json v op e m :
  jsonable (topics_value (topics m)) = true ->
  carries_json op ->
  jsonable (topics_value (topics (state_after (run v op e m) m))) = true.
Proof. apply run_keeps_json. Qed.

(** X19. Whatever the fields hold, submitting the topic form or the
    content form on a topics list that is a JSON value leaves a topics
    list that is a JSON value: the forms never put [undefined] in the
    store. *)
Theorem forms_keep_json v e m :
  jsonable (topics_value (topics m)) = true ->
  (forall topicId name_input description_input,
     jsonable (topics_value
                 (topics (state_after
                            (Page.handleTopicSubmit v topicId name_input description_input e m)
                            m))) = true)
  /\ (forall topicId contentId form,
        jsonable (topics_value
                    (topics (state_after
                               (Page.handleContentSubmit v topicId contentId form e m) m)))
        = true).
Proof.
  intros Hj. split.
  - intros topicId name_input description_input. unfold Page.handleTopicSubmit.
    destruct topicId as [id|]; [destruct (Page.truthy id) |].
    + apply (run_keeps_json v (UpdateTopic id _ _) e m Hj). split; reflexivity.
    + apply (run_keeps_json v (AddTopic _ _) e m Hj). split; [reflexivity | right; reflexivity].
    + apply (run_keeps_json v (AddTopic _ _) e m Hj). split; [reflexivity | right; reflexivity].
  - intros topicId contentId form.
    assert (Hdata : Forall (fun kv => jsonable (snd kv) = true)
                      (JS.spread (Page.contentData_of form))).
    { apply (jsonable_obj (JS.spread (Page.contentData_of form))), jsonable_contentData. }
    unfold Page.handleContentSubmit.
    destruct contentId as [id|]; [destruct (Page.truthy id) |].
    + exact (run_keeps_json v (UpdateContent topicId id _) e m Hj Hdata).
    + exact (run_keeps_json v (AddContent topicId _) e m Hj Hdata).
    + exact (run_keeps_json v (AddContent topicId _) e m Hj Hdata).
Qed.

End KeepsJson.

(** ** The theorems at work on the reference engine *)

Section Examples.
#[local] Existing Instance reference_engine.

Example manager1_blob :
  storage (manager1 Home) !! "cyberlearn_data"
  = Some (Engine.stringify 0 (topics_value [topic1; topic2])).
Proof. vm_compute. reflexivity. Qed.

Example generateId_env0 : generateId env0 = "loyw3v287k3".
Proof. vm_compute. reflexivity. Qed.

Example parse_broken : Engine.parse "[{" = Throw SyntaxError.
Proof. vm_compute. reflexivity. Qed.

Example deleteTopic_manager1 :
  topics (state_after (deleteTopic Home "t1" env0 (manager1 Home)) (manager1 Home)) = [topic2].
Proof. vm_compute. reflexivity. Qed.

Example addTopic_default_description :
  fst <$> addTopic Home (VStr "Linux") VUndefined env0 manager0
  = Return (VObj [("id", VStr "loyw3v287k3"); ("name", VStr "Linux");
                  ("description", VStr EmptyString); ("contents", VArr []);
                  ("createdAt", VStr "2023-11-14T22:13:20.000Z")]).
Proof. vm_compute. reflexivity. Qed.

(** The sanitizing map turns any array element that is not [null] into
    an object with an array as [contents]; a [null] element makes the map
    throw, which the [catch] of [importData] reports as an unreadable
    file. *)
Example importData_numbers :
  fst <$> importData HomeBackup "[7, [1]]" true env0 manager0
  = Return (saveData HomeBackup env0
              {| topics := [[("contents", VArr [])];
                            [("0", VNum 1); ("contents", VArr [])]];
                 storage := ∅ |}).
Proof. vm_compute. reflexivity. Qed.

Example importData_null_element :
  importData HomeBackup "[null]" true env0 manager0
  = Return (manager0, Some (false, "Error reading file. Please select a valid JSON file.")).
Proof. vm_compute. reflexivity. Qed.

Lemma blob_synced_witness :
  synced Shared (manager1 Shared)
  /\ synced Shared
       (state_after
          (run Shared (UpdateContent "t1" "c1" (VObj [("title", VStr "Ports and protocols")]))
             env0 (manager1 Shared))
          (manager1 Shared)).
Proof.
  split; [vm_compute; reflexivity |].
  apply blob_synced_after_every_operation. vm_compute. reflexivity.
Defined.

Lemma saveData_frame_witness :
  "cyberlearn_shown_tip" <> storageKey Shared
  /\ "cyberlearn_shown_tip" <> storageKey Shared +:+ "_updated"
  /\ storage (saveData Shared env0 manager0) !! "cyberlearn_shown_tip"
     = storage manager0 !! "cyberlearn_shown_tip".
Proof.
  split; [vm_compute; discriminate |].
  split; [vm_compute; discriminate |].
  apply (saveData_frame Shared env0 manager0 "cyberlearn_shown_tip");
    vm_compute; discriminate.
Defined.

(** One [saveData] call of the shared listing writes two keys. *)
Lemma shared_saveData_writes_two_keys :
  storage (saveData Shared env0 manager0) !! "cyberlearn_shared_data"
    <> storage manager0 !! "cyberlearn_shared_data"
  /\ storage (saveData Shared env0 manager0) !! "cyberlearn_shared_data_updated"
       <> storage manager0 !! "cyberlearn_shared_data_updated".
Proof. split; vm_compute; discriminate. Qed.

Lemma loadData_without_try_witness :
  Home <> HomeBackup
  /\ stored Home broken_store = Some "[{"
  /\ JSON_parse "[{" = Throw SyntaxError
  /\ loadData Home FetchFailed broken_store = (Throw SyntaxError, broken_store).
Proof.
  split; [discriminate |].
  split; [vm_compute; reflexivity |].
  split; [vm_compute; reflexivity |].
  apply (loadData_without_try_propagates Home broken_store "[{" SyntaxError);
    [discriminate | vm_compute; reflexivity | vm_compute; reflexivity].
Defined.

Example loadData_sanitizing_broken :
  loadData HomeBackup FetchFailed broken_store = (Return (VArr []), broken_store).
Proof. vm_compute. reflexivity. Qed.


Lemma updateContent_witness :
  exists merged topic' cs' m',
    updateContent SinglePage "t1" "c1"
      (VObj [("title", VStr "Ports and protocols"); ("image", VStr "data:image/png;base64,AAAA")])
      env0 (manager1 SinglePage) = Return (VUndefined, m')
    /\ JS.lookup_prop "title" merged = Some (VStr "Ports and protocols")
    /\ JS.lookup_prop "id" merged = Some (VStr "c1")
    /\ cs' !! 0 = Some (VObj merged)
    /\ JS.get_own topic' "contents" = VArr cs'
    /\ topics m' !! 0 = Some topic'
    /\ topics m' !! 1 = Some topic2.
Proof.
  destruct (updateContent_merges_in_place SinglePage "t1" "c1"
              (VObj [("title", VStr "Ports and protocols");
                     ("image", VStr "data:image/png;base64,AAAA")])
              env0 (manager1 SinglePage) 0 topic1 [VObj card1] 0 (VObj card1))
    as (merged & topic' & cs' & m' & Hrun & Hnew & Hold & Hcs & _ & _ & Ht & _ & _ & Hm & Hoth & _);
    [reflexivity | reflexivity | reflexivity | reflexivity
    | apply (bool_decide_unpack _); vm_compute; exact I |].
  exists merged, topic', cs', m'.
  split; [exact Hrun |].
  split; [apply Hnew; reflexivity |].
  split; [rewrite Hold; reflexivity |].
  split; [exact Hcs |].
  split; [exact Ht |].
  split; [exact Hm |].
  rewrite Hoth by discriminate. reflexivity.
Defined.

Lemma importData_atomic_witness :
  JSON_parse "[{" = Throw SyntaxError
  /\ importData HomeBackup "[{" true env0 (manager1 HomeBackup)
     = Return (manager1 HomeBackup,
               Some (false, "Error reading file. Please select a valid JSON file.")).
Proof.
  split; [vm_compute; reflexivity |].
  apply (proj1 (importData_atomic HomeBackup "[{" true env0 (manager1 HomeBackup))
           SyntaxError).
  vm_compute. reflexivity.
Defined.



(** C6, as first stated, has the new record carry a fresh id.  Two
    calls in the same millisecond that draw the same random digits give
    the second record the id of the first. *)
Lemma addTopic_id_not_fresh :
  exists (older topic : obj) (m' : manager),
    topics manager_once !! 0%nat = Some older
    /\ addTopic Home (VStr "Windows") VUndefined env0 manager_once = Return (VObj topic, m')
    /\ JS.get_own topic "id" = JS.get_own older "id"
    /\ getTopic "loyw3v287k3" m' = Some older.
Proof.
  eexists _, _, _. split; [vm_compute; reflexivity |].
  split; [reflexivity |]. split; vm_compute; reflexivity.
Qed.

End Examples.

(** ** Import keeps the blob in step *)

Section ImportSaves.
Context `{Json}.

(** With every write taken, [importData] keeps the invariant of the
    store. *)
Theorem importData_keeps_synced v text cb e m :
  synced v m ->
  exists m' report, importData v text cb e m = Return (m', report) /\ synced v m'.
Proof.
  intros Hs. unfold importData.
  destruct (JSON_parse text) as [[]|]; simpl; eauto.
  destruct (JS.mapM sanitize elems); simpl; eauto.
  eexists _, _. split; [reflexivity | apply saveData_synced].
Qed.

End ImportSaves.

(** ** The store with a quota *)

Section StoreWithQuota.
Context `{Json}.

Lemma quota_saveData_topics v fits e m :
  topics (fst (Quota.saveData v fits e m)) = topics m.
Proof.
  unfold Quota.saveData, Quota.setItem.
  destruct (fits (<[storageKey v := _]> (storage m))); [|reflexivity].
  destruct v; try reflexivity.
  destruct (fits _); reflexivity.
Qed.

(** A save that returns has written what [saveData] writes. *)
Lemma quota_saveData_returned v fits e m :
  snd (Quota.saveData v fits e m) = true ->
  fst (Quota.saveData v fits e m) = saveData v e m.
Proof.
  unfold Quota.saveData, Quota.setItem, saveData.
  destruct (fits (<[storageKey v := _]> (storage m))); [|discriminate].
  destruct v; try reflexivity.
  destruct (fits _); [reflexivity | discriminate].
Qed.

(** With room for every write the save returns. *)
Lemma quota_saveData_room v fits e m :
  (forall st, fits st = true) ->
  snd (Quota.saveData v fits e m) = true.
Proof.
  intros Hroom. unfold Quota.saveData, Quota.setItem.
  rewrite Hroom. destruct v; try reflexivity.
  rewrite Hroom. reflexivity.
Qed.

(** Outside the shared listing a refused save leaves the manager it was
    given. *)
Lemma quota_saveData_refused v fits e m :
  v <> Shared ->
  snd (Quota.saveData v fits e m) = false ->
  fst (Quota.saveData v fits e m) = m.
Proof.
  intros Hv. unfold Quota.saveData, Quota.setItem.
  destruct (fits (<[storageKey v := _]> (storage m))); [|reflexivity].
  destruct v; try discriminate. congruence.
Qed.

(** An operation is its plan followed by the save. *)
Lemma run_plan v op e m :
  run v op e m
  = match Quota.plan op e m with
    | Throw err => Throw err
    | Return (r, None) => Return (r, m)
    | Return (r, Some ts) => Return (r, saveData v e (with_topics ts m))
    end.
Proof.
  destruct op; simpl;
    unfold addTopic, updateTopic, deleteTopic, addContent, updateContent, deleteContent;
    unfold mbind, outcome_bind;
    repeat match goal with
      | |- context [match ?x with _ => _ end] => destruct x
      end;
    reflexivity.
Qed.

(** X7. On a store whose topics all have an array of readable elements
    as [contents], the only thing that makes an operation throw is a
    [setItem] refused for lack of room.  Either the call returns, with
    the result and the manager [run] gives, or it ends in
    [QuotaExceededError] with the topics list already the one [run]
    gives; the list it leaves is of the same kind in both cases.  When
    the store has room for every write, the call returns. *)
Theorem workable_store_throws_only_out_of_room v fits op e m :
  Forall workable (topics m) ->
  exists r m0 m',
    run v op e m = Return (r, m0)
    /\ topics m' = topics m0
    /\ Forall workable (topics m')
    /\ (Quota.run v fits op e m = (Quota.Completed r, m') /\ m' = m0
        \/ Quota.run v fits op e m = (Quota.OutOfRoom, m'))
    /\ ((forall st, fits st = true) ->
        Quota.run v fits op e m = (Quota.Completed r, m0)).
Proof.
  intros Hall.
  destruct (workable_store_never_throws v op e m Hall) as (r & m0 & Hrun & Hw).
  exists r, m0. pose proof (run_plan v op e m) as Hplan. rewrite Hrun in Hplan.
  unfold Quota.run.
  destruct (Quota.plan op e m) as [[r' [ts|]]|err]; try discriminate.
  - injection Hplan as -> ->.
    pose proof (quota_saveData_topics v fits e (with_topics ts m)) as Hts.
    pose proof (quota_saveData_returned v fits e (with_topics ts m)) as Hret.
    pose proof (quota_saveData_room v fits e (with_topics ts m)) as Hroom.
    destruct (Quota.saveData v fits e (with_topics ts m)) as [m' returned].
    simpl in Hts, Hret, Hroom.
    exists m'. split; [exact Hrun |].
    assert (Htop : topics m' = topics (saveData v e (with_topics ts m)))
      by (rewrite topics_saveData; exact Hts).
    split; [exact Htop |]. split; [rewrite Htop; exact Hw |]. split.
    + destruct returned.
      * left. split; [reflexivity | apply Hret; reflexivity].
      * right. reflexivity.
    + intros Hfits. rewrite (Hroom Hfits) in *. rewrite Hret by reflexivity. reflexivity.
  - injection Hplan as -> ->. exists m.
    split; [exact Hrun |]. split; [reflexivity |]. split; [exact Hw |].
    split; [left; split; reflexivity | reflexivity].
Qed.

(** X20. On the home page with backup, [importData] keeps the
    invariant of the store as long as [setItem] takes what [saveData]
    writes: when the blob is the serialisation of the topics list
    before the call, it is again after it, and the manager and the
    report are those [Manager.importData] gives.  The one other way for
    the call to end is a save refused for lack of room after the file
    was read and sanitized: the [catch] then reports a read error, the
    topics list is already the imported one, and the store is the one
    from before the call. *)
Theorem importData_synced_unless_out_of_room fits text cb e m :
  synced HomeBackup m ->
  exists m' report,
    Quota.importData HomeBackup fits text cb e m = (m', report)
    /\ (synced HomeBackup m' /\ importData HomeBackup text cb e m = Return (m', report)
        \/ exists elems,
             JSON_parse text = Return (VArr elems)
             /\ JS.mapM sanitize elems = Return (topics m')
             /\ snd (Quota.saveData HomeBackup fits e (with_topics (topics m') m)) = false
             /\ storage m' = storage m
             /\ report = notify cb false "Error reading file. Please select a valid JSON file.")
    /\ ((forall st, fits st = true) ->
        synced HomeBackup m' /\ importData HomeBackup text cb e m = Return (m', report)).
Proof.
  intros Hs. unfold Quota.importData, importData.
  destruct (JSON_parse text) as [x|err] eqn:Hparse; simpl.
  2: { eexists _, _. split; [reflexivity |]. split; [left |]; auto. }
  destruct x as [| | | | |elems|];
    try (eexists _, _; split; [reflexivity |]; split; [left |]; auto).
  destruct (JS.mapM sanitize elems) as [ts|err] eqn:Hmap; simpl.
  2: { eexists _, _. split; [reflexivity |]. split; [left |]; auto. }
  pose proof (quota_saveData_topics HomeBackup fits e (with_topics ts m)) as Hts.
  pose proof (quota_saveData_returned HomeBackup fits e (with_topics ts m)) as Hret.
  pose proof (quota_saveData_refused HomeBackup fits e (with_topics ts m)) as Hrefused.
  pose proof (quota_saveData_room HomeBackup fits e (with_topics ts m)) as Hroom.
  destruct (Quota.saveData HomeBackup fits e (with_topics ts m)) as [m' returned] eqn:Hsave.
  cbn [fst snd] in Hts, Hret, Hrefused, Hroom.
  eexists _, _. split; [reflexivity |]. split.
  - destruct returned.
    + left. rewrite Hret by reflexivity. split; [apply saveData_synced | reflexivity].
    + right. exists elems. split; [reflexivity |].
      cbn [topics with_topics] in Hts. rewrite Hts.
      split; [exact Hmap |]. rewrite Hsave. split; [reflexivity |].
      split; [|reflexivity].
      rewrite Hrefused; [reflexivity | discriminate | reflexivity].
  - intros Hfits. rewrite (Hroom Hfits) in *. rewrite Hret by reflexivity.
    split; [apply saveData_synced | reflexivity].
Qed.

End StoreWithQuota.

(** ** The reference engine never gives the empty text *)

Section EngineText.
Import Engine.

Lemma stringify_nonempty space x : stringify space x <> EmptyString.
Proof.
  unfold stringify. destruct (serialize space 0 x) as [body|] eqn:E; simpl.
  - destruct (serialize_head _ _ _ _ E) as (c & cs & -> & _). discriminate.
  - discriminate.
Qed.

End EngineText.

(** ** The further properties at work on the reference engine *)

Section MoreExamples.
#[local] Existing Instance reference_engine.

Lemma addContent_witness :
  exists content topic' m',
    addContent SinglePage "t1" (VObj [("title", VStr "DNS"); ("id", VStr "mine")])
      env0 (manager1 SinglePage) = Return (VObj content, m')
    /\ JS.lookup_prop "id" content = Some (VStr "mine")
    /\ JS.lookup_prop "createdAt" content = Some (VStr "2023-11-14T22:13:20.000Z")
    /\ JS.get_own topic' "contents" = VArr [VObj card1; VObj content]
    /\ topics m' !! 0 = Some topic'.
Proof.
  destruct (addContent_appends SinglePage "t1" (VObj [("title", VStr "DNS"); ("id", VStr "mine")])
              env0 (manager1 SinglePage) 0 topic1 [VObj card1])
    as (content & topic' & m' & Hrun & Hcr & Hid & _ & Hcs & _ & Hm & _);
    [reflexivity | reflexivity | apply (bool_decide_unpack _); vm_compute; exact I |].
  exists content, topic', m'. repeat split; assumption.
Defined.

Lemma deleteContent_witness :
  exists cs' topic' m',
    deleteContent TopicPage "t1" "c1" env0 (manager1 TopicPage) = Return (VUndefined, m')
    /\ removes_content "c1" [VObj card1] cs'
    /\ JS.get_own topic' "contents" = VArr cs'
    /\ topics m' !! 0 = Some topic'.
Proof.
  destruct (deleteContent_removes_matching TopicPage "t1" "c1" env0 (manager1 TopicPage)
              0 topic1 [VObj card1])
    as (cs' & topic' & m' & Hrun & Hrem & _ & _ & Hcs & _ & Hm & _);
    [reflexivity | reflexivity | repeat constructor |].
  exists cs', topic', m'. repeat split; assumption.
Defined.

Lemma updateTopic_witness :
  exists topic' m',
    updateTopic Home "t2" (VStr "Cryptography") (VStr "Ciphers") env0 (manager1 Home)
    = Return (VUndefined, m')
    /\ JS.get_own topic' "name" = VStr "Cryptography"
    /\ JS.lookup_prop "id" topic' = Some (VStr "t2")
    /\ topics m' !! 0 = Some topic1
    /\ getTopic "t2" m' = Some topic'.
Proof.
  destruct (updateTopic_overwrites_in_place Home "t2" (VStr "Cryptography") (VStr "Ciphers")
              env0 (manager1 Home) 1 topic2)
    as (topic' & m' & Hrun & _ & Hname & _ & Hkeep & Hoth & _ & Hget); [reflexivity |].
  exists topic', m'.
  split; [exact Hrun |]. split; [exact Hname |].
  split; [rewrite Hkeep by discriminate; reflexivity |].
  split; [rewrite Hoth by discriminate; reflexivity | exact Hget].
Defined.

Lemma getTopic_after_deleteTopic_witness :
  "t2" <> "t1"
  /\ getTopic "t2" (state_after (deleteTopic Home "t1" env0 (manager1 Home)) (manager1 Home))
     = getTopic "t2" (manager1 Home).
Proof.
  split; [discriminate |].
  apply (proj2 (getTopic_after_deleteTopic Home "t1" env0 (manager1 Home))). discriminate.
Defined.


Lemma getTopic_after_addTopic_witness :
  "t1" <> generateId env0
  /\ getTopic "t1" (state_after (addTopic Home (VStr "Linux") VUndefined env0 (manager1 Home))
                      (manager1 Home))
     = getTopic "t1" (manager1 Home).
Proof.
  split; [vm_compute; discriminate |].
  apply (proj2 (getTopic_after_addTopic Home (VStr "Linux") VUndefined env0 (manager1 Home))).
  vm_compute. discriminate.
Defined.

Lemma workable_store_witness :
  Forall workable (topics (manager1 Shared))
  /\ exists r m0 m',
       run Shared (DeleteContent "t1" "c1") env0 (manager1 Shared) = Return (r, m0)
       /\ topics m' = topics m0
       /\ Forall workable (topics m')
       /\ (Quota.run Shared full_store (DeleteContent "t1" "c1") env0 (manager1 Shared)
            = (Quota.Completed r, m') /\ m' = m0
           \/ Quota.run Shared full_store (DeleteContent "t1" "c1") env0 (manager1 Shared)
              = (Quota.OutOfRoom, m'))
       /\ ((forall st, full_store st = true) ->
           Quota.run Shared full_store (DeleteContent "t1" "c1") env0 (manager1 Shared)
           = (Quota.Completed r, m0)).
Proof.
  assert (Hw : Forall workable (topics (manager1 Shared))).
  { repeat constructor.
    - exists [VObj card1]. split; [reflexivity | repeat constructor].
    - exists []. split; [reflexivity | constructor]. }
  split; [exact Hw |].
  exact (workable_store_throws_only_out_of_room Shared full_store
           (DeleteContent "t1" "c1") env0 (manager1 Shared) Hw).
Defined.

(** A full store: the call ends in [QuotaExceededError], the card is
    gone from the list and still in the blob. *)
Example deleteContent_out_of_room :
  let r := Quota.run Shared full_store (DeleteContent "t1" "c1") env0 (manager1 Shared) in
  fst r = Quota.OutOfRoom
  /\ topics (snd r) = [JS.set_prop "contents" (VArr []) topic1; topic2]
  /\ storage (snd r) = storage (manager1 Shared).
Proof. vm_compute. repeat split. Qed.

(** A store that takes anything: the call returns what [run] gives. *)
Example deleteContent_with_room :
  Quota.run Shared roomy_store (DeleteContent "t1" "c1") env0 (manager1 Shared)
  = (Quota.Completed VUndefined,
     state_after (run Shared (DeleteContent "t1" "c1") env0 (manager1 Shared)) (manager1 Shared)).
Proof. vm_compute. reflexivity. Qed.

Lemma content_operations_witness :
  JS.find (has_id "t3") (topics manager3) = Some (0, topic3)
  /\ JS.isArray (JS.get_own topic3 "contents") = false
  /\ addContent SinglePage "t3" (Page.contentData_of form0) env0 manager3 = Throw TypeError.
Proof.
  split; [reflexivity |]. split; [reflexivity |].
  apply (content_operations_need_an_array SinglePage "t3" "c1" (Page.contentData_of form0)
           env0 manager3 0 topic3); reflexivity.
Defined.

Lemma load_after_save_witness :
  jsonable (topics_value (topics (manager1 HomeBackup))) = true
  /\ fst (loadData HomeBackup FetchFailed
            (storage (saveData HomeBackup env0 (manager1 HomeBackup))))
     = Return (topics_value [topic1; topic2]).
Proof.
  split; [vm_compute; reflexivity |].
  apply (load_after_save HomeBackup FetchFailed env0 (manager1 HomeBackup)).
  - intros x Hx. exact (parse_stringify 0 x Hx).
  - intros x. exact (stringify_nonempty 0 x).
  - vm_compute. reflexivity.
  - intros _. repeat constructor.
  - intros body data Hf. discriminate Hf.
Defined.


Lemma null_element_witness :
  JSON_parse "[{}, null]" = Return (VArr [VObj []; VNull])
  /\ importData HomeBackup "[{}, null]" true env0 (manager1 HomeBackup)
     = Return (manager1 HomeBackup,
               Some (false, "Error reading file. Please select a valid JSON file.")).
Proof.
  assert (Hp : JSON_parse "[{}, null]" = Return (VArr [VObj []; VNull]))
    by (vm_compute; reflexivity).
  split; [exact Hp |].
  apply (null_element_discards_all HomeBackup "[{}, null]" [VObj []; VNull] true env0
           (manager1 HomeBackup) ∅ Hp).
  right. left. reflexivity.
Defined.


Lemma sanitize_idempotent_witness :
  sanitize (VStr "ab") = Return [("0", VStr "a"); ("1", VStr "b"); ("contents", VArr [])]
  /\ sanitize (VObj [("0", VStr "a"); ("1", VStr "b"); ("contents", VArr [])])
     = Return [("0", VStr "a"); ("1", VStr "b"); ("contents", VArr [])].
Proof.
  split; [reflexivity |].
  apply (sanitize_idempotent (VStr "ab")). reflexivity.
Defined.

Lemma form_edit_witness :
  exists merged (topic' : obj) (cs' : list value) m',
    Page.handleContentSubmit TopicPage "t1" (Some "c1") form0 env0 (manager1 TopicPage)
    = Return (VUndefined, m')
    /\ JS.get_own topic' "contents" = VArr cs'
    /\ cs' !! 0 = Some (VObj merged)
    /\ JS.lookup_prop "id" merged = Some (VStr "c1")
    /\ JS.lookup_prop "createdAt" merged = Some (VStr "2023-11-01T10:00:00.000Z")
    /\ JS.lookup_prop "title" merged = Some (VStr "Ports and protocols")
    /\ JS.lookup_prop "subtopics" merged = Some (VArr [VStr "tcp"; VStr "udp"]).
Proof.
  destruct (form_edit_keeps_identity TopicPage "t1" "c1" form0 env0 (manager1 TopicPage)
              0 topic1 [VObj card1] 0 (VObj card1))
    as (merged & topic' & cs' & m' & Hrun & _ & Ht & Hcs & Hid & Hcr & _ & Hform);
    [reflexivity | reflexivity | reflexivity | reflexivity | reflexivity |].
  exists merged, topic', cs', m'.
  split; [exact Hrun |]. split; [exact Ht |]. split; [exact Hcs |]. split; [exact Hid |].
  split; [rewrite Hcr; reflexivity |].
  split; apply Hform; vm_compute; reflexivity.
Defined.

Lemma generateId_injective_witness :
  let later := {| now := now env0; random := [7; 20; 3]%N;
                  created_iso := "2023-11-14T22:13:20.400Z";
                  saved_iso := "2023-11-14T22:13:20.401Z" |} in
  generateId env0 = generateId later /\ random env0 = random later.
Proof.
  intros later. split; [reflexivity |].
  apply (generateId_injective_per_tick env0 later); [reflexivity | | | reflexivity];
    repeat constructor.
Defined.

Lemma operations_keep_json_witness :
  jsonable (topics_value (topics (manager1 Home))) = true
  /\ carries_json (AddTopic (VStr "Linux") VUndefined)
  /\ jsonable (topics_value
                 (topics (state_after (run Home (AddTopic (VStr "Linux") VUndefined) env0
                                         (manager1 Home))
                            (manager1 Home)))) = true.
Proof.
  assert (Hop : carries_json (AddTopic (VStr "Linux") VUndefined))
    by (split; [reflexivity | left; reflexivity]).
  split; [vm_compute; reflexivity |]. split; [exact Hop |].
  apply operations_keep_json; [vm_compute; reflexivity | exact Hop].
Defined.

Lemma forms_keep_json_witness :
  jsonable (topics_value (topics (manager1 SinglePage))) = true
  /\ jsonable (topics_value
                 (topics (state_after
                            (Page.handleContentSubmit SinglePage "t2" None form0 env0
                               (manager1 SinglePage))
                            (manager1 SinglePage)))) = true.
Proof.
  assert (Hj : jsonable (topics_value (topics (manager1 SinglePage))) = true)
    by (vm_compute; reflexivity).
  split; [exact Hj |].
  apply (forms_keep_json SinglePage env0 (manager1 SinglePage) Hj).
Defined.

Lemma importData_synced_witness :
  synced HomeBackup (manager1 HomeBackup)
  /\ exists m' report,
       Quota.importData HomeBackup roomy_store "[7, [1]]" true env0 (manager1 HomeBackup)
       = (m', report)
       /\ (synced HomeBackup m'
            /\ importData HomeBackup "[7, [1]]" true env0 (manager1 HomeBackup)
               = Return (m', report)
           \/ exists elems,
                JSON_parse "[7, [1]]" = Return (VArr elems)
                /\ JS.mapM sanitize elems = Return (topics m')
                /\ snd (Quota.saveData HomeBackup roomy_store env0
                          (with_topics (topics m') (manager1 HomeBackup))) = false
                /\ storage m' = storage (manager1 HomeBackup)
                /\ report = notify true false
                              "Error reading file. Please select a valid JSON file.")
       /\ ((forall st, roomy_store st = true) ->
           synced HomeBackup m'
           /\ importData HomeBackup "[7, [1]]" true env0 (manager1 HomeBackup)
              = Return (m', report)).
Proof.
  assert (Hs : synced HomeBackup (manager1 HomeBackup)) by (vm_compute; reflexivity).
  split; [exact Hs |].
  exact (importData_synced_unless_out_of_room roomy_store "[7, [1]]" true env0
           (manager1 HomeBackup) Hs).
Defined.

(** A full store: the file is read and sanitized, the list is replaced,
    the save is refused, and the report blames the file; the blob is
    still the one of the old list. *)
Example importData_out_of_room :
  let r := Quota.importData HomeBackup full_store "[]" true env0 (manager1 HomeBackup) in
  topics (fst r) = []
  /\ storage (fst r) = storage (manager1 HomeBackup)
  /\ snd r = Some (false, "Error reading file. Please select a valid JSON file.")
  /\ ~ synced HomeBackup (fst r).
Proof.
  split; [vm_compute; reflexivity |]. split; [vm_compute; reflexivity |].
  split; [vm_compute; reflexivity |]. vm_compute. discriminate.
Qed.

Example form0_contentData :
  Page.contentData_of form0
  = VObj [("title", VStr "Ports and protocols"); ("description", VStr "Well-known ports");
          ("subtopics", VArr [VStr "tcp"; VStr "udp"]);
          ("links", VArr [VObj [("label", VStr "IANA"); ("url", VStr "https://www.iana.org")]]);
          ("image", VNull)].
Proof. vm_compute. reflexivity. Qed.

End MoreExamples.
